(** * The user data disk manager of finch ([pkg/disk/disk.go])

    A shallow embedding of [EnsureUserDataDisk] and its helpers.  The
    manager talks to three collaborators through Go interfaces: the lima
    command creator ([command.LimaCmdCreator]), the plain command creator
    used for [qemu-img] ([command.Creator]) and the filesystem ([diskFS]).
    They are an abstract interface here too ([Collaborators]); the code of
    the manager is written once, over any implementation of it, in a state
    and error monad that also records every call made to a collaborator. *)

From Stdlib Require Import Ascii String.
From stdpp Require Import gmap strings list fin_maps.

Open Scope string_scope.
Open Scope list_scope.

(** ** Go's [path] package: [Clean], [Join] and [Dir] *)
Module path.

(** The elements of a path between its slashes, in order. *)
Fixpoint elems_from (cur : string) (s : string) : list string :=
  match s with
  | EmptyString => [cur]
  | String c s' =>
      if Ascii.eqb c "/"%char then cur :: elems_from "" s'
      else elems_from (cur ++ String c "")%string s'
  end.

Definition elems (s : string) : list string := elems_from "" s.

Definition rooted (s : string) : bool :=
  match s with
  | String c _ => Ascii.eqb c "/"%char
  | EmptyString => false
  end.

(** One pass over the elements, keeping the output as a stack (last kept
    element first): empty and [.] elements are dropped, [..] removes the
    element before it, is dropped at the root and is kept at the start of
    a relative path. *)
Fixpoint clean_elems (isroot : bool) (out : list string) (es : list string)
  : list string :=
  match es with
  | [] => rev out
  | e :: es' =>
      if String.eqb e "" || String.eqb e "." then clean_elems isroot out es'
      else if String.eqb e ".." then
        match out with
        | top :: out' =>
            if String.eqb top ".." then clean_elems isroot (e :: out) es'
            else clean_elems isroot out' es'
        | [] =>
            if isroot then clean_elems isroot [] es'
            else clean_elems isroot [e] es'
        end
      else clean_elems isroot (e :: out) es'
  end.

Fixpoint join_slash (es : list string) : string :=
  match es with
  | [] => ""
  | [e] => e
  | e :: es' => (e ++ "/" ++ join_slash es')%string
  end.

Definition assemble (isroot : bool) (es : list string) : string :=
  let body := join_slash es in
  if isroot then ("/" ++ body)%string
  else if String.eqb body "" then "." else body.

Definition Clean (s : string) : string :=
  assemble (rooted s) (clean_elems (rooted s) [] (elems s)).

(** [Join] ignores empty elements at the front, puts a slash between the
    others and cleans the result; no element at all gives the empty
    string. *)
Fixpoint glue (buf : string) (es : list string) : string :=
  match es with
  | [] => buf
  | e :: es' =>
      if String.eqb buf "" then glue e es'
      else glue (buf ++ "/" ++ e)%string es'
  end.

Definition Join (es : list string) : string :=
  let buf := glue "" es in
  if String.eqb buf "" then "" else Clean buf.

(** [Dir] cleans what is before the last slash. *)
Definition Dir (s : string) : string :=
  assemble (rooted s) (clean_elems (rooted s) [] (removelast (elems s))).

End path.

(** ** Errors

    A Go [error] is either an error a collaborator returned, or one the
    manager built with [fmt.Errorf]; the latter keeps its format string and
    its string arguments, and [ErrorfW] also the error its [%w] verb wraps. *)
Inductive error : Type :=
| ErrNotExist
| ErrOther (msg : string)
| Errorf (format : string) (args : list string)
| ErrorfW (format : string) (args : list string) (wrapped : error).

(** [errors.Is(err, fs.ErrNotExist)]: follows the chain of wrapped errors. *)
Fixpoint errors_Is_ErrNotExist (e : error) : bool :=
  match e with
  | ErrNotExist => true
  | ErrorfW _ _ e' => errors_Is_ErrNotExist e'
  | _ => false
  end.

Global Instance error_eq_dec : EqDecision error.
Proof. solve_decision. Defined.

(** [err == nil] *)
Definition is_nil (err : option error) : bool :=
  match err with
  | None => true
  | Some _ => false
  end.

(** ** Data of the manager *)

(** [diskName] must always be consistent with the value under
    additionalDisks in finch.yaml. *)
Definition diskName : string := "finch".
Definition diskSize : string := "50G".

Record qemuDiskInfo : Type := {
  VirtualSize : Z;
  Filename : string;
  Format : string;
  ActualSize : Z;
  DirtyFlag : bool
}.

(** The one field of [limaStore.Disk] the manager reads. *)
Record limaDisk : Type := { Name : string }.

(** What the manager holds besides its collaborators: the paths given by
    [fpath.Finch] (its methods are not in the sources; they are fields
    here), the home directory and the configured VM type, the string
    [*m.config.VMType] points to. *)
Record userDataDiskManager : Type := {
  finch_LimaHomePath : string;
  finch_UserDataDiskPath : string → string;
  finch_QEMUBinDir : string;
  homeDir : string;
  config_VMType : string
}.

(** ** Calls to the collaborators, as recorded *)
Inductive event : Type :=
| EvLima (args : list string)
| EvExec (name : string) (args : list string)
| EvStat (name : string)
| EvMkdirAll (name : string) (perm : N)
| EvRename (oldname newname : string)
| EvRemove (name : string)
| EvSymlink (oldname newname : string)
| EvReadlink (name : string).

Global Instance event_eq_dec : EqDecision event.
Proof. solve_decision. Defined.

(** ** The collaborators

    Every call takes the world (registry, host files, whatever the
    implementation keeps) and gives its Go results and the world after the
    call:
    - [lcc_run args] is [m.lcc.CreateWithoutStdio(args...)] followed by
      [Output()] or [CombinedOutput()]: the captured output and the error;
    - [ecc_run name args] is [m.ecc.Create(name, args...).CombinedOutput()];
    - the [fs_] fields are the methods of [diskFS] the manager calls (the
      [FileInfo] of [Stat] is dropped, as the manager drops it);
    - the [json_] fields are [json.Unmarshal] into a [limaStore.Disk] and
      into a [qemuDiskInfo]: functions of the output alone. *)
Class Collaborators (W : Type) : Type := {
  lcc_run : list string → W → (string * option error) * W;
  ecc_run : string → list string → W → (string * option error) * W;
  fs_Stat : string → W → option error * W;
  fs_MkdirAll : string → N → W → option error * W;
  fs_Rename : string → string → W → option error * W;
  fs_Remove : string → W → option error * W;
  fs_SymlinkIfPossible : string → string → W → option error * W;
  fs_ReadlinkIfPossible : string → W → (string * option error) * W;
  json_Unmarshal_Disk : string → error + limaDisk;
  json_Unmarshal_qemuDiskInfo : string → error + qemuDiskInfo
}.

(** ** The monad: state, first error wins, calls recorded *)
Section Monad.
Context {W : Type}.

Inductive result (A : Type) : Type :=
| Ok (a : A)
| Err (e : error).
Global Arguments Ok {A} a.
Global Arguments Err {A} e.

Record Res (A : Type) : Type := mkRes {
  val : result A;
  st : W;
  tr : list event
}.
Global Arguments mkRes {A} val st tr.
Global Arguments val {A} r.
Global Arguments st {A} r.
Global Arguments tr {A} r.

Definition M (A : Type) : Type := W → Res A.

Definition ret {A} (a : A) : M A := λ w, mkRes (Ok a) w [].

Definition fail {A} (e : error) : M A := λ w, mkRes (Err e) w [].

Definition bind {A B} (c : M A) (k : A → M B) : M B :=
  λ w,
    let r := c w in
    match val r with
    | Err e => mkRes (Err e) (st r) (tr r)
    | Ok a => let r' := k a (st r) in mkRes (val r') (st r') (tr r ++ tr r')
    end.

(** A call to a collaborator: run it, record it. *)
Definition call {R} (ev : event) (op : W → R * W) : M R :=
  λ w, let '(r, w') := op w in mkRes (Ok r) w' [ev].

End Monad.

Global Arguments M W A : clear implicits.

Notation "'do' x <- c ; k" := (bind c (λ x, k))
  (at level 10, x pattern, c at level 100, k at level 200, only parsing).
Notation "'run' c ; k" := (bind c (λ _, k))
  (at level 10, c at level 100, k at level 200, only parsing).

(** ** The manager ([disk.go]) *)
Section Manager.
Context {W : Type} `{Collaborators W}.
Variable m : userDataDiskManager.

Definition newline : string := String (ascii_of_nat 10) "".

(** [m.finch.UserDataDiskPath(m.homeDir)] *)
Definition diskPathOf : string := finch_UserDataDiskPath m (homeDir m).

(** [fmt.Sprintf("%s/_disks/%s/datadisk", m.finch.LimaHomePath(), diskName)] *)
Definition limaPathOf : string :=
  (finch_LimaHomePath m ++ "/_disks/" ++ diskName ++ "/datadisk")%string.

(** [path.Join(m.finch.LimaHomePath(), "_disks", diskName, "in_use_by")] *)
Definition lockPathOf : string :=
  path.Join [finch_LimaHomePath m; "_disks"; diskName; "in_use_by"].

(** [fmt.Sprintf("%s.qcow2", diskPath)] *)
Definition qcowPathOf (diskPath : string) : string :=
  (diskPath ++ ".qcow2")%string.

(** [path.Join(m.finch.QEMUBinDir(), "qemu-img")] *)
Definition qemuImg : string := path.Join [finch_QEMUBinDir m; "qemu-img"].

Definition lsArgs : list string := ["disk"; "ls"; diskName; "--json"].
Definition createArgs : list string :=
  ["disk"; "create"; diskName; "--size"; diskSize; "--format"; "raw"].
Definition unlockArgs : list string := ["disk"; "unlock"; diskName].
Definition infoArgs (diskPath : string) : list string :=
  ["info"; "--output=json"; diskPath].
Definition convertArgs (qcowPath diskPath : string) : list string :=
  ["convert"; "-f"; "qcow2"; "-O"; "raw"; qcowPath; diskPath].

Definition persistentDiskExists : M W bool :=
  do err <- call (EvStat diskPathOf) (fs_Stat diskPathOf);
  ret (is_nil err).

Definition limaDiskExists : M W bool :=
  do oe <- call (EvLima lsArgs) (lcc_run lsArgs);
  match oe.2 with
  | Some _ => ret false
  | None =>
      match json_Unmarshal_Disk oe.1 with
      | inl _ => ret false
      | inr diskListOutput => ret (String.eqb (Name diskListOutput) diskName)
      end
  end.

Definition getDiskInfo (diskPath : string) : M W qemuDiskInfo :=
  do oe <- call (EvExec qemuImg (infoArgs diskPath))
                (ecc_run qemuImg (infoArgs diskPath));
  match oe.2 with
  | Some err =>
      fail (ErrorfW "failed to get disk info for disk at %q: %w" [diskPath] err)
  | None =>
      match json_Unmarshal_qemuDiskInfo oe.1 with
      | inl err =>
          fail (ErrorfW "failed to unmarshal disk info JSON for disk at %q: %w"
                        [diskPath] err)
      | inr diskInfoJSON => ret diskInfoJSON
      end
  end.

Definition convertToRaw (diskPath : string) : M W unit :=
  let qcowPath := qcowPathOf diskPath in
  do err <- call (EvRename diskPath qcowPath) (fs_Rename diskPath qcowPath);
  match err with
  | Some err => fail (ErrorfW "faied to rename disk: %w" [] err)
  | None =>
      do oe <- call (EvExec qemuImg (convertArgs qcowPath diskPath))
                    (ecc_run qemuImg (convertArgs qcowPath diskPath));
      match oe.2 with
      | Some err =>
          fail (ErrorfW "failed to convert disk %q from qcow2 to raw: %w"
                        [diskPath] err)
      | None => ret tt
      end
  end.

Definition createLimaDisk : M W unit :=
  do oe <- call (EvLima createArgs) (lcc_run createArgs);
  match oe.2 with
  | Some _ =>
      fail (Errorf ("failed to create disk, debug logs:" ++ newline ++ "%s")%string
                   [oe.1])
  | None => ret tt
  end.

Definition attachPersistentDiskToLimaDisk : M W unit :=
  let limaPath := limaPathOf in
  do exists_ <- persistentDiskExists;
  run (if negb exists_ then
         let disksDir := path.Dir diskPathOf in
         do err <- call (EvStat disksDir) (fs_Stat disksDir);
         run (match err with
              | Some e =>
                  if errors_Is_ErrNotExist e then
                    do err <- call (EvMkdirAll disksDir 493) (fs_MkdirAll disksDir 493);
                    match err with
                    | Some err =>
                        fail (ErrorfW "could not create persistent disk directory: %w"
                                      [] err)
                    | None => ret tt
                    end
                  else ret tt
              | None => ret tt
              end);
         do err <- call (EvRename limaPath diskPathOf) (fs_Rename limaPath diskPathOf);
         match err with
         | Some err =>
             fail (ErrorfW "could not move data disk to persistent path: %w" [] err)
         | None => ret tt
         end
       else ret tt);
  (* if a datadisk already exists in the lima path, SymlinkIfPossible will
     no-op. to ensure that it symlinks properly, we have to delete the disk
     in the lima path *)
  do err <- call (EvStat limaPath) (fs_Stat limaPath);
  run (match err with
       | Some err => if negb (errors_Is_ErrNotExist err) then fail err else ret tt
       | None =>
           do err <- call (EvRemove limaPath) (fs_Remove limaPath);
           match err with
           | Some err => fail err
           | None => ret tt
           end
       end);
  do err <- call (EvSymlink diskPathOf limaPath)
                 (fs_SymlinkIfPossible diskPathOf limaPath);
  match err with
  | Some err => fail err
  | None => ret tt
  end.

Definition limaDiskIsLocked : M W bool :=
  let lockPath := lockPathOf in
  do err <- call (EvStat lockPath) (fs_Stat lockPath);
  ret (is_nil err).

Definition unlockLimaDisk : M W unit :=
  do oe <- call (EvLima unlockArgs) (lcc_run unlockArgs);
  match oe.2 with
  | Some _ =>
      fail (Errorf ("failed to unlock disk, debug logs:" ++ newline ++ "%s")%string
                   [oe.1])
  | None => ret tt
  end.

(** [EnsureUserDataDisk] checks the current disk configuration and fixes it
    if needed.  A [return err] of the source is a [fail] here: nothing after
    it runs. *)
Definition EnsureUserDataDisk : M W unit :=
  do exists_ <- limaDiskExists;
  run (if exists_ then
         let diskPath := diskPathOf in
         run (if String.eqb (config_VMType m) "vz" then
                do info <- getDiskInfo diskPath;
                (* Convert the persistent disk file to RAW before Lima starts. *)
                if negb (String.eqb (Format info) "raw") then
                  run convertToRaw diskPath;
                  (* since convertToRaw moves the disk, the symlink needs to
                     be recreated *)
                  attachPersistentDiskToLimaDisk
                else ret tt
              else ret tt);
         (* if the file is not a symlink, loc will be an empty string *)
         let limaPath := limaPathOf in
         do le <- call (EvReadlink limaPath) (fs_ReadlinkIfPossible limaPath);
         match le.2 with
         | Some err => fail err
         | None =>
             if negb (String.eqb le.1 diskPath) then attachPersistentDiskToLimaDisk
             else ret tt
         end
       else
         run createLimaDisk;
         attachPersistentDiskToLimaDisk);
  do locked <- limaDiskIsLocked;
  run (if locked then unlockLimaDisk else ret tt);
  ret tt.

End Manager.

(** ** Reference collaborators *)

(** Modelled from the spec: the collaborators behind the three interfaces
    (the registry tool, the image tool and the filesystem abstraction), none
    of which is in the sources.  The host is a flat map from paths to what
    they hold.  The filesystem operations are the six the manager consumes,
    as the spec and the comments of [disk.go] describe them: stat succeeds
    when the path holds anything, a move replaces its destination, reading a
    link gives the empty string for what is not a symlink, and creating a
    symlink does nothing when the path is already taken; making a directory
    adds the directory itself.  The registry keeps the names of its disks,
    lists a disk it has and prints nothing for one it has not, creates a
    disk's file in the disk's slot and unlocks by removing the lock marker
    (which fails on a marker that is a directory).  The image tool reports
    the format of a regular file and converts a file that is in the format
    it is told to read.  A command prints the name (registry) or the format
    (image tool) where the real tools print a JSON object with that field. *)
Module Ref.

(** What a path holds: a regular file (a disk image, with its format), a
    symlink or a directory. *)
Inductive node : Type :=
| File (format : string)
| Symlink (target : string)
| Dir.

Global Instance node_eq_dec : EqDecision node.
Proof. solve_decision. Defined.

(** The host files and the names of the disks the registry has. *)
Record world : Type := mkWorld {
  files : gmap string node;
  disks : gset string
}.

Definition with_files (w : world) (f : gmap string node) : world :=
  mkWorld f (disks w).

Definition exitStatus : error := ErrOther "exit status 1".

(** Where the registry keeps the file and the lock marker of a disk. *)
Definition slotOf (limaHome name : string) : string :=
  (limaHome ++ "/_disks/" ++ name ++ "/datadisk")%string.

Definition markerOf (limaHome name : string) : string :=
  path.Join [limaHome; "_disks"; name; "in_use_by"].

(** The registry tool: [disk ls], [disk create] and [disk unlock]. *)
Definition limactl (limaHome : string) (args : list string) (w : world)
  : (string * option error) * world :=
  match args with
  | ["disk"; "ls"; name; "--json"] =>
      if bool_decide (name ∈ disks w) then ((name, None), w)
      else (("", None), w)
  | ["disk"; "create"; name; "--size"; _; "--format"; format] =>
      if bool_decide (name ∈ disks w)
      then (("disk already exists", Some exitStatus), w)
      else (("", None),
            mkWorld (<[slotOf limaHome name := File format]> (files w))
                    ({[name]} ∪ disks w))
  | ["disk"; "unlock"; name] =>
      match files w !! markerOf limaHome name with
      | Some Dir => (("cannot remove the lock", Some exitStatus), w)
      | _ => (("", None), with_files w (delete (markerOf limaHome name) (files w)))
      end
  | _ => (("unknown command", Some exitStatus), w)
  end.

(** The image tool: [info] and [convert]. *)
Definition qemu_img (args : list string) (w : world)
  : (string * option error) * world :=
  match args with
  | ["info"; "--output=json"; name] =>
      match files w !! name with
      | Some (File format) => ((format, None), w)
      | _ => (("could not open the image", Some exitStatus), w)
      end
  | ["convert"; "-f"; from; "-O"; to; src; dst] =>
      match files w !! src with
      | Some (File format) =>
          if String.eqb format from
          then (("", None), with_files w (<[dst := File to]> (files w)))
          else (("image is not in the given format", Some exitStatus), w)
      | _ => (("could not open the image", Some exitStatus), w)
      end
  | _ => (("unknown command", Some exitStatus), w)
  end.

(** The filesystem. *)
Definition Stat (name : string) (w : world) : option error * world :=
  match files w !! name with
  | Some _ => (None, w)
  | None => (Some ErrNotExist, w)
  end.

Definition MkdirAll (name : string) (perm : N) (w : world)
  : option error * world :=
  match files w !! name with
  | None => (None, with_files w (<[name := Dir]> (files w)))
  | Some Dir => (None, w)
  | Some _ => (Some (ErrOther "not a directory"), w)
  end.

Definition Rename (oldname newname : string) (w : world)
  : option error * world :=
  match files w !! oldname with
  | Some n => (None, with_files w (<[newname := n]> (delete oldname (files w))))
  | None => (Some ErrNotExist, w)
  end.

Definition Remove (name : string) (w : world) : option error * world :=
  match files w !! name with
  | Some _ => (None, with_files w (delete name (files w)))
  | None => (Some ErrNotExist, w)
  end.

Definition SymlinkIfPossible (oldname newname : string) (w : world)
  : option error * world :=
  match files w !! newname with
  | Some _ => (None, w)
  | None => (None, with_files w (<[newname := Symlink oldname]> (files w)))
  end.

Definition ReadlinkIfPossible (name : string) (w : world)
  : (string * option error) * world :=
  match files w !! name with
  | Some (Symlink target) => ((target, None), w)
  | _ => (("", None), w)
  end.

(** Decoding what the tools print. *)
Definition Unmarshal_Disk (out : string) : error + limaDisk :=
  if String.eqb out "" then inl (ErrOther "unexpected end of JSON input")
  else inr {| Name := out |}.

Definition Unmarshal_qemuDiskInfo (out : string) : error + qemuDiskInfo :=
  if String.eqb out "" then inl (ErrOther "unexpected end of JSON input")
  else inr {| VirtualSize := 0; Filename := ""; Format := out;
              ActualSize := 0; DirtyFlag := false |}.

(** The collaborators of a manager whose lima home is [limaHome]. *)
Definition collaborators (limaHome : string) : Collaborators world := {|
  lcc_run := limactl limaHome;
  ecc_run := λ _, qemu_img;
  fs_Stat := Stat;
  fs_MkdirAll := MkdirAll;
  fs_Rename := Rename;
  fs_Remove := Remove;
  fs_SymlinkIfPossible := SymlinkIfPossible;
  fs_ReadlinkIfPossible := ReadlinkIfPossible;
  json_Unmarshal_Disk := Unmarshal_Disk;
  json_Unmarshal_qemuDiskInfo := Unmarshal_qemuDiskInfo
|}.

(** [EnsureUserDataDisk] of manager [m] run on the reference collaborators. *)
Definition ensure (m : userDataDiskManager) : M world unit :=
  @EnsureUserDataDisk world (collaborators (finch_LimaHomePath m)) m.

(** A manager of a macOS install, for the examples. *)
Definition mgr (vmType : string) : userDataDiskManager := {|
  finch_LimaHomePath := "/Applications/Finch/lima/data";
  finch_UserDataDiskPath := λ home, (home ++ "/.finch/.disks/0a1b")%string;
  finch_QEMUBinDir := "/Applications/Finch/lima/bin";
  homeDir := "/Users/u";
  config_VMType := vmType
|}.

End Ref.


(** * What the properties are stated with *)

(** ** Runs *)
Section RunVocabulary.
Context {W : Type}.

(** The result of a computation that started after the calls [t]. *)
Definition after_calls {A} (t : list event) (r : @Res W A) : Res A :=
  mkRes (val r) (st r) (t ++ tr r).

(** Every call a computation records satisfies [P], whatever the world. *)
Definition calls_in {A} (P : event → Prop) (c : M W A) : Prop :=
  ∀ w, Forall P (tr (c w)).

(** [post c w Q]: [Q] holds of the value and the world that [c] gives from
    [w]. *)
Definition post {A} (c : M W A) (w : W) (Q : result A → W → Prop) : Prop :=
  Q (val (c w)) (st (c w)).

End RunVocabulary.

Section KeepsVocabulary.
Context {W : Type}.
Variable I : W → W → Prop.

(** [keeps c]: the world [c] leaves is related by [I] to the one it
    started in, whether [c] fails or not. *)
Definition keeps {A} (c : M W A) : Prop := ∀ w, I w (st (c w)).

End KeepsVocabulary.

Fixpoint count_calls (p : event → bool) (t : list event) : nat :=
  match t with
  | [] => 0
  | ev :: t' => (if p ev then 1 else 0) + count_calls p t'
  end.

(** A run of the image tool's [convert], of the registry's [unlock]. *)
Definition is_convert (ev : event) : bool :=
  match ev with
  | EvExec _ ("convert" :: _) => true
  | _ => false
  end.

Definition is_unlock (ev : event) : bool :=
  match ev with
  | EvLima ["disk"; "unlock"; _] => true
  | _ => false
  end.

(** A call that changes nothing: a query of the registry, of the image tool
    or of the filesystem. *)
Definition is_query (ev : event) : bool :=
  match ev with
  | EvLima ["disk"; "ls"; _; "--json"] => true
  | EvExec _ ("info" :: _) => true
  | EvStat _ | EvReadlink _ => true
  | _ => false
  end.

(** ** The parts of [EnsureUserDataDisk] and of link repair *)
Section Parts.
Context {W : Type} `{Collaborators W}.
Variable m : userDataDiskManager.

Local Abbreviation disk := (diskPathOf m).
Local Abbreviation lima := (limaPathOf m).
Local Abbreviation dir := (path.Dir (diskPathOf m)).
Local Abbreviation qcow := (qcowPathOf (diskPathOf m)).
Local Abbreviation vz := (String.eqb (config_VMType m) "vz").
Local Abbreviation attach := (attachPersistentDiskToLimaDisk m).

(** Format normalization (source lines 81 to 100). *)
Definition normalizeFormat : M W unit :=
  if String.eqb (config_VMType m) "vz" then
    do info <- getDiskInfo m (diskPathOf m);
    if negb (String.eqb (Format info) "raw") then
      run convertToRaw m (diskPathOf m);
      attachPersistentDiskToLimaDisk m
    else ret tt
  else ret tt.

(** Link verification (source lines 102 to 114). *)
Definition verifyLink : M W unit :=
  do le <- call (EvReadlink (limaPathOf m)) (fs_ReadlinkIfPossible (limaPathOf m));
  match le.2 with
  | Some err => fail err
  | None =>
      if negb (String.eqb le.1 (diskPathOf m)) then attachPersistentDiskToLimaDisk m
      else ret tt
  end.

(** The creation branch (source lines 116 to 121). *)
Definition createAndAttach : M W unit :=
  run createLimaDisk;
  attachPersistentDiskToLimaDisk m.

(** Everything before lock clearance (source lines 78 to 122). *)
Definition reconcile : M W unit :=
  do exists_ <- limaDiskExists;
  if exists_ then run normalizeFormat; verifyLink else createAndAttach.

(** Lock clearance (source lines 124 to 131). *)
Definition clearLock : M W unit :=
  do locked <- limaDiskIsLocked m;
  run (if locked then unlockLimaDisk else ret tt);
  ret tt.

Definition of_err (err : option error) : result unit :=
  match err with
  | Some e => Err e
  | None => Ok tt
  end.

(** The move of the slot's file to the persistent path (source lines 204 to
    213) and the clearing of the slot followed by the symlink (source lines
    216 to 234). *)
Definition moveSlot : M W unit :=
  do err <- call (EvStat dir) (fs_Stat dir);
  run (match err with
       | Some e =>
           if errors_Is_ErrNotExist e then
             do err <- call (EvMkdirAll dir 493) (fs_MkdirAll dir 493);
             match err with
             | Some err =>
                 fail (ErrorfW "could not create persistent disk directory: %w"
                               [] err)
             | None => ret tt
             end
           else ret tt
       | None => ret tt
       end);
  do err <- call (EvRename lima disk) (fs_Rename lima disk);
  match err with
  | Some err =>
      fail (ErrorfW "could not move data disk to persistent path: %w" [] err)
  | None => ret tt
  end.

Definition clearSlotAndLink : M W unit :=
  do err <- call (EvStat lima) (fs_Stat lima);
  run (match err with
       | Some err => if negb (errors_Is_ErrNotExist err) then fail err else ret tt
       | None =>
           do err <- call (EvRemove lima) (fs_Remove lima);
           match err with
           | Some err => fail err
           | None => ret tt
           end
       end);
  do err <- call (EvSymlink disk lima) (fs_SymlinkIfPossible disk lima);
  match err with
  | Some err => fail err
  | None => ret tt
  end.

(** The calls of link repair, and the calls of everything before lock
    clearance. *)
Definition attach_calls : list event :=
  [ EvStat (diskPathOf m); EvStat (path.Dir (diskPathOf m));
    EvMkdirAll (path.Dir (diskPathOf m)) 493;
    EvRename (limaPathOf m) (diskPathOf m);
    EvStat (limaPathOf m); EvRemove (limaPathOf m);
    EvSymlink (diskPathOf m) (limaPathOf m) ].

Definition reconcile_calls : list event :=
  [ EvLima lsArgs; EvLima createArgs;
    EvExec (qemuImg m) (infoArgs (diskPathOf m));
    EvRename (diskPathOf m) (qcowPathOf (diskPathOf m));
    EvExec (qemuImg m) (convertArgs (qcowPathOf (diskPathOf m)) (diskPathOf m));
    EvReadlink (limaPathOf m) ] ++ attach_calls.

(** [fails_before_clearance w e wf t]: in the run from [w], one of the steps
    before lock clearance (inspection, conversion, link repair after the
    conversion, reading the link, link repair after reading it, creation,
    link repair after creation) is reached and fails with [e]; [t] is
    every call up to and including those of that step, [wf] the world the
    step leaves. *)
Inductive fails_before_clearance (w : W) : error → W → list event → Prop :=
| fail_inspect e :
    let q := limaDiskExists w in
    let i := getDiskInfo m disk (st q) in
    val q = Ok true → vz = true → val i = Err e →
    fails_before_clearance w e (st i) (tr q ++ tr i)
| fail_convert e info :
    let q := limaDiskExists w in
    let i := getDiskInfo m disk (st q) in
    let c := convertToRaw m disk (st i) in
    val q = Ok true → vz = true → val i = Ok info → Format info ≠ "raw" →
    val c = Err e →
    fails_before_clearance w e (st c) (tr q ++ tr i ++ tr c)
| fail_reattach e info :
    let q := limaDiskExists w in
    let i := getDiskInfo m disk (st q) in
    let c := convertToRaw m disk (st i) in
    let a := attach (st c) in
    val q = Ok true → vz = true → val i = Ok info → Format info ≠ "raw" →
    val c = Ok tt → val a = Err e →
    fails_before_clearance w e (st a) (tr q ++ tr i ++ tr c ++ tr a)
| fail_readlink e :
    let q := limaDiskExists w in
    let n := normalizeFormat (st q) in
    let l := fs_ReadlinkIfPossible lima (st n) in
    val q = Ok true → val n = Ok tt → l.1.2 = Some e →
    fails_before_clearance w e l.2 (tr q ++ tr n ++ [EvReadlink lima])
| fail_repair e :
    let q := limaDiskExists w in
    let n := normalizeFormat (st q) in
    let l := fs_ReadlinkIfPossible lima (st n) in
    let a := attach l.2 in
    val q = Ok true → val n = Ok tt → l.1.2 = None → l.1.1 ≠ disk →
    val a = Err e →
    fails_before_clearance w e (st a) (tr q ++ tr n ++ [EvReadlink lima] ++ tr a)
| fail_create e :
    let q := limaDiskExists w in
    let c := createLimaDisk (st q) in
    val q = Ok false → val c = Err e →
    fails_before_clearance w e (st c) (tr q ++ tr c)
| fail_attach e :
    let q := limaDiskExists w in
    let c := createLimaDisk (st q) in
    let a := attach (st c) in
    val q = Ok false → val c = Ok tt → val a = Err e →
    fails_before_clearance w e (st a) (tr q ++ tr c ++ tr a).

(** The run from [w] gets to the conversion command: the registry has the
    disk, the backend is [vz], the inspection succeeds and reports a format
    other than raw, and the move of the persistent file to its [.qcow2]
    sibling succeeds. *)
Definition conversion_reached (w : W) : Prop :=
  let q := limaDiskExists w in
  let i := getDiskInfo m disk (st q) in
  val q = Ok true ∧ vz = true
  ∧ ∃ info, val i = Ok info ∧ Format info ≠ "raw"
            ∧ (fs_Rename disk qcow (st i)).1 = None.

Definition conversion_reachedb (w : W) : bool :=
  let q := limaDiskExists w in
  let i := getDiskInfo m disk (st q) in
  match val q with
  | Ok true =>
      vz && match val i with
            | Ok info =>
                negb (String.eqb (Format info) "raw")
                && is_nil (fs_Rename disk qcow (st i)).1
            | Err _ => false
            end
  | _ => false
  end.

(** The run gets to the conversion command and the command succeeds. *)
Definition conversion_succeeded (w : W) : Prop :=
  let q := limaDiskExists w in
  let i := getDiskInfo m disk (st q) in
  let mv := fs_Rename disk qcow (st i) in
  conversion_reached w
  ∧ (ecc_run (qemuImg m) (convertArgs qcow disk) mv.2).1.2 = None.

End Parts.

(** ** Paths and hosts *)

Fixpoint last_ascii (s : string) : option ascii :=
  match s with
  | EmptyString => None
  | String c s' =>
      match last_ascii s' with
      | Some c' => Some c'
      | None => Some c
      end
  end.

(** An element that is a plain name stays where it is when the path is
    cleaned. *)
Definition plain (e : string) : Prop :=
  String.eqb e "" = false ∧ String.eqb e "." = false ∧ String.eqb e ".." = false.

(** The manager with another VM type configured, and the runs of
    [EnsureUserDataDisk] on the reference collaborators one after the
    other, each with its VM type. *)
Definition with_VMType (m : userDataDiskManager) (vmType : string)
  : userDataDiskManager :=
  {| finch_LimaHomePath := finch_LimaHomePath m;
     finch_UserDataDiskPath := finch_UserDataDiskPath m;
     finch_QEMUBinDir := finch_QEMUBinDir m;
     homeDir := homeDir m;
     config_VMType := vmType |}.

Fixpoint runs (m : userDataDiskManager) (vmTypes : list string) (w : Ref.world)
  : Ref.world :=
  match vmTypes with
  | [] => w
  | vmType :: rest => runs m rest (st (Ref.ensure (with_VMType m vmType) w))
  end.

(** The file at [p] is the same in both worlds. *)
Definition same_at (p : string) (w w' : Ref.world) : Prop :=
  Ref.files w' !! p = Ref.files w !! p.

(** ** States of the reference host *)

(** The slot is a symlink to the persistent path; the persistent file is raw
    when the backend is [vz]; there is no lock marker. *)
Definition linked (m : userDataDiskManager) (w : Ref.world) : Prop :=
  Ref.files w !! limaPathOf m = Some (Ref.Symlink (diskPathOf m)).

Definition raw_if_required (m : userDataDiskManager) (w : Ref.world) : Prop :=
  config_VMType m = "vz" → Ref.files w !! diskPathOf m = Some (Ref.File "raw").

Definition unlocked (m : userDataDiskManager) (w : Ref.world) : Prop :=
  Ref.files w !! lockPathOf m = None.

Definition converged (m : userDataDiskManager) (w : Ref.world) : Prop :=
  linked m w ∧ raw_if_required m w ∧ unlocked m w.

(** A second run right after the run from [w]: no error, the state as the
    first run left it, and queries only. *)
Definition second_run_is_noop (m : userDataDiskManager) (w : Ref.world) : Prop :=
  let w1 := st (Ref.ensure m w) in
  val (Ref.ensure m w1) = Ok tt
  ∧ st (Ref.ensure m w1) = w1
  ∧ Forall (λ ev, is_query ev = true) (tr (Ref.ensure m w1)).

(** ** Example hosts *)
Definition home_lima : string := "/Applications/Finch/lima/data".
Definition slot : string := "/Applications/Finch/lima/data/_disks/finch/datadisk".
Definition marker : string := "/Applications/Finch/lima/data/_disks/finch/in_use_by".
Definition pdisk : string := "/Users/u/.finch/.disks/0a1b".
Definition qemu_img_bin : string := "/Applications/Finch/lima/bin/qemu-img".

(** Nothing yet: no registry disk, no file. *)
Definition w_fresh : Ref.world := Ref.mkWorld ∅ ∅.

(** The registry was wiped (a reinstall), the persistent qcow2 file of an
    earlier install is still there. *)
Definition w_reinstalled : Ref.world :=
  Ref.mkWorld {[ pdisk := Ref.File "qcow2" ]} ∅.

(** A registry disk, linked, with a qcow2 persistent file and a stale lock. *)
Definition w_qcow2_locked : Ref.world :=
  Ref.mkWorld (<[pdisk := Ref.File "qcow2"]>
                 (<[slot := Ref.Symlink pdisk]>
                    {[ marker := Ref.Symlink "/instance/default" ]}))
              {[ "finch" ]}.

(** A registry disk whose slot still holds a regular file. *)
Definition w_unlinked : Ref.world :=
  Ref.mkWorld (<[pdisk := Ref.File "raw"]> {[ slot := Ref.File "raw" ]})
              {[ "finch" ]}.

(** A registry disk with a persistent file in the vmdk format. *)
Definition w_vmdk : Ref.world :=
  Ref.mkWorld (<[pdisk := Ref.File "vmdk"]> {[ slot := Ref.Symlink pdisk ]})
              {[ "finch" ]}.

(** A registry disk whose persistent file is gone, and a stale lock. *)
Definition w_lost : Ref.world :=
  Ref.mkWorld {[ marker := Ref.Symlink "/instance/default" ]} {[ "finch" ]}.

(** The sibling path and the conversion command as C4 words them: the path
    tagged with the extension of the old format, that format given to the
    image tool as the source format. *)
Definition claimed_sibling (diskPath format : string) : string :=
  (diskPath ++ "." ++ format)%string.

Definition claimed_convertArgs (format src dst : string) : list string :=
  ["convert"; "-f"; format; "-O"; "raw"; src; dst].

(** ** More about the calls of a run *)

(** A run of the image tool, the registry's list query, the registry's
    create. *)
Definition is_exec (ev : event) : bool :=
  match ev with
  | EvExec _ _ => true
  | _ => false
  end.

Definition is_ls (ev : event) : bool :=
  match ev with
  | EvLima ["disk"; "ls"; _; "--json"] => true
  | _ => false
  end.

Definition is_create (ev : event) : bool :=
  match ev with
  | EvLima ("disk" :: "create" :: _) => true
  | _ => false
  end.

(** Every call [EnsureUserDataDisk] has in its text, with the arguments it
    gives them. *)
Definition ensure_calls (m : userDataDiskManager) : list event :=
  [ EvLima ["disk"; "ls"; "finch"; "--json"];
    EvLima ["disk"; "create"; "finch"; "--size"; "50G"; "--format"; "raw"];
    EvLima ["disk"; "unlock"; "finch"];
    EvExec (qemuImg m) ["info"; "--output=json"; diskPathOf m];
    EvExec (qemuImg m)
      ["convert"; "-f"; "qcow2"; "-O"; "raw"; qcowPathOf (diskPathOf m); diskPathOf m];
    EvStat (diskPathOf m);
    EvStat (path.Dir (diskPathOf m));
    EvStat (limaPathOf m);
    EvStat (lockPathOf m);
    EvMkdirAll (path.Dir (diskPathOf m)) 493;
    EvRename (diskPathOf m) (qcowPathOf (diskPathOf m));
    EvRename (limaPathOf m) (diskPathOf m);
    EvRemove (limaPathOf m);
    EvSymlink (diskPathOf m) (limaPathOf m);
    EvReadlink (limaPathOf m) ].

(** ** Hosts with faults *)

(** Modelled from the spec: the reference collaborators with the faults the
    spec names among its error conditions: a tool that cannot be run (the
    command fails with a not-exist error and prints nothing) and a stat
    that fails for another reason than absence (permission denied), for
    the paths listed. *)
Module Faulty.

Record faults : Type := mkFaults {
  no_registry_tool : bool;
  no_image_tool : bool;
  denied : list string
}.

Definition limactl (fl : faults) (limaHome : string) (args : list string)
    (w : Ref.world) : (string * option error) * Ref.world :=
  if no_registry_tool fl then (("", Some ErrNotExist), w)
  else Ref.limactl limaHome args w.

Definition qemu_img (fl : faults) (args : list string) (w : Ref.world)
  : (string * option error) * Ref.world :=
  if no_image_tool fl then (("", Some ErrNotExist), w)
  else Ref.qemu_img args w.

Definition Stat (fl : faults) (name : string) (w : Ref.world)
  : option error * Ref.world :=
  if bool_decide (name ∈ denied fl) then (Some (ErrOther "permission denied"), w)
  else Ref.Stat name w.

Definition collaborators (fl : faults) (limaHome : string)
  : Collaborators Ref.world := {|
  lcc_run := limactl fl limaHome;
  ecc_run := λ _, qemu_img fl;
  fs_Stat := Stat fl;
  fs_MkdirAll := Ref.MkdirAll;
  fs_Rename := Ref.Rename;
  fs_Remove := Ref.Remove;
  fs_SymlinkIfPossible := Ref.SymlinkIfPossible;
  fs_ReadlinkIfPossible := Ref.ReadlinkIfPossible;
  json_Unmarshal_Disk := Ref.Unmarshal_Disk;
  json_Unmarshal_qemuDiskInfo := Ref.Unmarshal_qemuDiskInfo
|}.

End Faulty.

(** No registry tool and no image tool on the host. *)
Definition no_tools : Faulty.faults := Faulty.mkFaults true true [].

(** The directory of the persistent file cannot be read. *)
Definition dir_denied : Faulty.faults :=
  Faulty.mkFaults false false ["/Users/u/.finch/.disks"].

(** A registry disk whose image is still in the slot: no persistent file. *)
Definition w_in_slot : Ref.world :=
  Ref.mkWorld {[ slot := Ref.File "raw" ]} {[ "finch" ]}.

(** ** More example hosts *)

(** The image tool is missing, the registry tool is there. *)
Definition no_image_tool_only : Faulty.faults := Faulty.mkFaults false true [].

(** A registry disk, linked, with a raw persistent file and a lock marker
    that is a directory. *)
Definition w_lock_dir : Ref.world :=
  Ref.mkWorld (<[pdisk := Ref.File "raw"]>
                 (<[slot := Ref.Symlink pdisk]> {[ marker := Ref.Dir ]}))
              {[ "finch" ]}.

(** A registry disk whose slot links to a persistent file that is gone. *)
Definition w_dangling : Ref.world :=
  Ref.mkWorld {[ slot := Ref.Symlink pdisk ]} {[ "finch" ]}.

(** The run from [w] has what it needs before lock clearance: when the
    registry has the disk, a raw or qcow2 persistent file for a [vz]
    backend, and for another backend something at the persistent path or
    in the slot. *)
Definition can_reconcile (m : userDataDiskManager) (w : Ref.world) : Prop :=
  diskName ∈ Ref.disks w →
  if String.eqb (config_VMType m) "vz"
  then Ref.files w !! diskPathOf m = Some (Ref.File "raw")
       ∨ Ref.files w !! diskPathOf m = Some (Ref.File "qcow2")
  else Ref.files w !! diskPathOf m ≠ None ∨ Ref.files w !! limaPathOf m ≠ None.


(** Modelled from the spec: collaborators on which the reading of a link
    fails with [err] (a filesystem failure, which the spec lists among the
    error conditions); everything else is as with [C]. *)
Definition with_failing_readlink {W : Type} (C : Collaborators W) (err : error)
  : Collaborators W := {|
  lcc_run := @lcc_run W C;
  ecc_run := @ecc_run W C;
  fs_Stat := @fs_Stat W C;
  fs_MkdirAll := @fs_MkdirAll W C;
  fs_Rename := @fs_Rename W C;
  fs_Remove := @fs_Remove W C;
  fs_SymlinkIfPossible := @fs_SymlinkIfPossible W C;
  fs_ReadlinkIfPossible := λ _ w, (("", Some err), w);
  json_Unmarshal_Disk := @json_Unmarshal_Disk W C;
  json_Unmarshal_qemuDiskInfo := @json_Unmarshal_qemuDiskInfo W C
|}.

(** The start of a run after which the persistent file is raw: the
    registry has the disk, or there is no persistent file, or the file is
    raw already. *)
Definition normalizing_start (m : userDataDiskManager) (w : Ref.world) : Prop :=
  diskName ∈ Ref.disks w
  ∨ Ref.files w !! diskPathOf m = None
  ∨ Ref.files w !! diskPathOf m = Some (Ref.File "raw").

(** ** Where the error of a run comes from *)
Section ErrorSources.
Context {W : Type} `{Collaborators W}.
Variable m : userDataDiskManager.

Local Abbreviation disk := (diskPathOf m).
Local Abbreviation lima := (limaPathOf m).
Local Abbreviation lock := (lockPathOf m).
Local Abbreviation dir := (path.Dir (diskPathOf m)).
Local Abbreviation qcow := (qcowPathOf (diskPathOf m)).
Local Abbreviation vz := (String.eqb (config_VMType m) "vz").
Local Abbreviation attach := (attachPersistentDiskToLimaDisk m).

(** [getDiskInfo] from [w] fails with [e]: the inspection command fails,
    or its output does not decode. *)
Inductive inspect_error (w : W) : error → Prop :=
| inspect_command cause :
    let i := ecc_run (qemuImg m) (infoArgs disk) w in
    i.1.2 = Some cause →
    inspect_error w (ErrorfW "failed to get disk info for disk at %q: %w" [disk] cause)
| inspect_decode cause :
    let i := ecc_run (qemuImg m) (infoArgs disk) w in
    i.1.2 = None → json_Unmarshal_qemuDiskInfo i.1.1 = inl cause →
    inspect_error w (ErrorfW "failed to unmarshal disk info JSON for disk at %q: %w"
                             [disk] cause).

(** [convertToRaw] from [w] fails with [e]: the move to the sibling path
    fails, or the move succeeds and the conversion command fails. *)
Inductive convert_error (w : W) : error → Prop :=
| convert_rename cause :
    let r := fs_Rename disk qcow w in
    r.1 = Some cause →
    convert_error w (ErrorfW "faied to rename disk: %w" [] cause)
| convert_command cause :
    let r := fs_Rename disk qcow w in
    let c := ecc_run (qemuImg m) (convertArgs qcow disk) r.2 in
    r.1 = None → c.1.2 = Some cause →
    convert_error w (ErrorfW "failed to convert disk %q from qcow2 to raw: %w"
                             [disk] cause).

(** [createLimaDisk] and [unlockLimaDisk] from [w] fail with [e]: the
    registry command fails. *)
Inductive create_error (w : W) : error → Prop :=
| create_command cause :
    let c := lcc_run createArgs w in
    c.1.2 = Some cause →
    create_error w (Errorf ("failed to create disk, debug logs:" ++ newline ++ "%s")%string
                           [c.1.1]).

Inductive unlock_error (w : W) : error → Prop :=
| unlock_command cause :
    let u := lcc_run unlockArgs w in
    u.1.2 = Some cause →
    unlock_error w (Errorf ("failed to unlock disk, debug logs:" ++ newline ++ "%s")%string
                           [u.1.1]).

(** The move of the slot's file from [w] fails with [e]: the directory is
    reported missing and making it fails, or the move itself fails. *)
Inductive move_error (w : W) : error → Prop :=
| move_mkdir e0 cause :
    let d := fs_Stat dir w in
    let mk := fs_MkdirAll dir 493 d.2 in
    d.1 = Some e0 → errors_Is_ErrNotExist e0 = true → mk.1 = Some cause →
    move_error w (ErrorfW "could not create persistent disk directory: %w" [] cause)
| move_rename_after_mkdir e0 cause :
    let d := fs_Stat dir w in
    let mk := fs_MkdirAll dir 493 d.2 in
    let mv := fs_Rename lima disk mk.2 in
    d.1 = Some e0 → errors_Is_ErrNotExist e0 = true → mk.1 = None →
    mv.1 = Some cause →
    move_error w (ErrorfW "could not move data disk to persistent path: %w" [] cause)
| move_rename cause :
    let d := fs_Stat dir w in
    let mv := fs_Rename lima disk d.2 in
    (∀ e0, d.1 = Some e0 → errors_Is_ErrNotExist e0 = false) →
    mv.1 = Some cause →
    move_error w (ErrorfW "could not move data disk to persistent path: %w" [] cause).

(** The clearing of the slot and the symlink from [w] fail with [e]: the
    stat of the slot fails for another reason than absence, the removal of
    its occupant fails, or the symlink fails. *)
Inductive link_error (w : W) : error → Prop :=
| link_stat e :
    let s := fs_Stat lima w in
    s.1 = Some e → errors_Is_ErrNotExist e = false →
    link_error w e
| link_remove e :
    let s := fs_Stat lima w in
    let rm := fs_Remove lima s.2 in
    s.1 = None → rm.1 = Some e →
    link_error w e
| link_symlink_after_remove e :
    let s := fs_Stat lima w in
    let rm := fs_Remove lima s.2 in
    let ln := fs_SymlinkIfPossible disk lima rm.2 in
    s.1 = None → rm.1 = None → ln.1 = Some e →
    link_error w e
| link_symlink e0 e :
    let s := fs_Stat lima w in
    let ln := fs_SymlinkIfPossible disk lima s.2 in
    s.1 = Some e0 → errors_Is_ErrNotExist e0 = true → ln.1 = Some e →
    link_error w e.

(** Link repair from [w] fails with [e]: in the move, made when the stat
    of the persistent file fails, or after it in the clearing of the slot
    and the symlink. *)
Inductive link_repair_error (w : W) (e : error) : Prop :=
| repair_move :
    let s := fs_Stat disk w in
    s.1 ≠ None → move_error s.2 e →
    link_repair_error w e
| repair_link_after_move :
    let s := fs_Stat disk w in
    let mv := moveSlot m s.2 in
    s.1 ≠ None → val mv = Ok tt → link_error (st mv) e →
    link_repair_error w e
| repair_link :
    let s := fs_Stat disk w in
    s.1 = None → link_error s.2 e →
    link_repair_error w e.

(** The run from [w] fails with [e], by the call that fails: the
    inspection or the decoding of its output, the move to the sibling or
    the conversion, the reading of the link, the registry's create or
    unlock, and in each of the three link repairs the making of the
    directory, the move of the slot's file, the stat or the removal of
    the slot's occupant, or the symlink. *)
Inductive error_source (w : W) (e : error) : Prop :=
| source_inspection :
    let q := limaDiskExists w in
    val q = Ok true → vz = true → inspect_error (st q) e →
    error_source w e
| source_conversion info :
    let q := limaDiskExists w in
    let i := getDiskInfo m disk (st q) in
    val q = Ok true → vz = true → val i = Ok info → Format info ≠ "raw" →
    convert_error (st i) e →
    error_source w e
| source_repair_after_conversion info :
    let q := limaDiskExists w in
    let i := getDiskInfo m disk (st q) in
    let c := convertToRaw m disk (st i) in
    val q = Ok true → vz = true → val i = Ok info → Format info ≠ "raw" →
    val c = Ok tt → link_repair_error (st c) e →
    error_source w e
| source_readlink :
    let q := limaDiskExists w in
    let n := normalizeFormat m (st q) in
    let l := fs_ReadlinkIfPossible lima (st n) in
    val q = Ok true → val n = Ok tt → l.1.2 = Some e →
    error_source w e
| source_repair_after_readlink :
    let q := limaDiskExists w in
    let n := normalizeFormat m (st q) in
    let l := fs_ReadlinkIfPossible lima (st n) in
    val q = Ok true → val n = Ok tt → l.1.2 = None → l.1.1 ≠ disk →
    link_repair_error l.2 e →
    error_source w e
| source_creation :
    let q := limaDiskExists w in
    val q = Ok false → create_error (st q) e →
    error_source w e
| source_repair_after_creation :
    let q := limaDiskExists w in
    let c := createLimaDisk (st q) in
    val q = Ok false → val c = Ok tt → link_repair_error (st c) e →
    error_source w e
| source_unlock :
    let r := reconcile m w in
    let s := fs_Stat lock (st r) in
    val r = Ok tt → s.1 = None → unlock_error s.2 e →
    error_source w e.

End ErrorSources.


(** * Properties *)

(** ** The monad *)
Section MonadFacts.
Context {W : Type}.

Lemma bind_unfold {A B} (c : M W A) (k : A → M W B) w :
  bind c k w =
  match val (c w) with
  | Err e => mkRes (Err e) (st (c w)) (tr (c w))
  | Ok a => after_calls (tr (c w)) (k a (st (c w)))
  end.
Proof. reflexivity. Qed.

Lemma bind_Ok {A B} (c : M W A) (k : A → M W B) w a :
  val (c w) = Ok a → bind c k w = after_calls (tr (c w)) (k a (st (c w))).
Proof. intros Hc. rewrite bind_unfold, Hc. reflexivity. Qed.

Lemma bind_Err {A B} (c : M W A) (k : A → M W B) w e :
  val (c w) = Err e → bind c k w = mkRes (Err e) (st (c w)) (tr (c w)).
Proof. intros Hc. rewrite bind_unfold, Hc. reflexivity. Qed.

Lemma st_after_calls {A} t (r : @Res W A) : st (after_calls t r) = st r.
Proof. reflexivity. Qed.

Lemma after_calls_nil {A} (r : @Res W A) : after_calls [] r = r.
Proof. destruct r; reflexivity. Qed.

Lemma after_calls_app {A} t1 t2 (r : @Res W A) :
  after_calls t1 (after_calls t2 r) = after_calls (t1 ++ t2) r.
Proof. unfold after_calls; simpl. by rewrite app_assoc. Qed.

Lemma call_run {R} ev (op : W → R * W) w :
  call ev op w = mkRes (Ok (op w).1) (op w).2 [ev].
Proof. unfold call. by destruct (op w). Qed.

Lemma bind_call {R B} ev (op : W → R * W) (k : R → M W B) w :
  bind (call ev op) k w = after_calls [ev] (k (op w).1 (op w).2).
Proof. rewrite bind_unfold, call_run. reflexivity. Qed.

Lemma bind_ret {A B} (a : A) (k : A → M W B) w : bind (ret a) k w = k a w.
Proof. rewrite bind_unfold. simpl. apply after_calls_nil. Qed.

Lemma bind_fail {A B} e (k : A → M W B) w : bind (fail e) k w = fail e w.
Proof. reflexivity. Qed.

Lemma bind_assoc {A B C} (c : M W A) (k : A → M W B) (k' : B → M W C) w :
  bind (bind c k) k' w = bind c (λ a, bind (k a) k') w.
Proof.
  rewrite !bind_unfold.
  destruct (val (c w)) as [a|e] eqn:Hc; simpl; [|reflexivity].
  rewrite bind_unfold.
  destruct (val (k a (st (c w)))) as [b|e]; simpl; [|reflexivity].
  unfold after_calls; simpl. by rewrite app_assoc.
Qed.

Lemma calls_in_ret {A} P (a : A) : calls_in P (@ret W A a).
Proof. intros w. constructor. Qed.

Lemma calls_in_fail {A} P e : calls_in P (@fail W A e).
Proof. intros w. constructor. Qed.

Lemma calls_in_call {R} (P : event → Prop) ev (op : W → R * W) :
  P ev → calls_in P (call ev op).
Proof.
  intros HP w. unfold call. destruct (op w) as [r w']. simpl.
  by repeat constructor.
Qed.

Lemma calls_in_bind {A B} P (c : M W A) (k : A → M W B) :
  calls_in P c → (∀ a, calls_in P (k a)) → calls_in P (bind c k).
Proof.
  intros Hc Hk w. rewrite bind_unfold.
  destruct (val (c w)) as [a|e]; simpl; [|apply Hc].
  apply Forall_app. split; [apply Hc | apply Hk].
Qed.

End MonadFacts.

(** One step of a run: reassociate, run a call, a [ret] or a [fail], and
    compute the record fields. *)
Ltac mstep :=
  first
    [ rewrite bind_assoc
    | rewrite bind_call
    | rewrite bind_ret
    | rewrite bind_fail
    | rewrite call_run
    | progress cbn [after_calls val st tr ret fail app fst snd is_nil negb] ].

Ltac in_list :=
  simpl; repeat first [ apply list_elem_of_here | apply list_elem_of_further ].

Ltac calls_in_step :=
  first
    [ apply calls_in_ret
    | apply calls_in_fail
    | apply calls_in_call
    | apply calls_in_bind; [|intros ?]
    | match goal with
      | |- calls_in _ (match ?x with _ => _ end) => destruct x
      | |- calls_in _ (if ?x then _ else _) => destruct x
      | |- calls_in _ (let _ := _ in _) => cbv zeta
      end ].

(** ** The two phases of [EnsureUserDataDisk] *)
Section Phases.
Context {W : Type} `{Collaborators W}.
Variable m : userDataDiskManager.

Lemma EnsureUserDataDisk_phases w :
  EnsureUserDataDisk m w = bind (reconcile m) (λ _, clearLock m) w.
Proof.
  unfold reconcile. rewrite bind_assoc. reflexivity.
Qed.

End Phases.

(** ** Which calls a run makes *)

Lemma count_calls_app p t1 t2 :
  count_calls p (t1 ++ t2) = count_calls p t1 + count_calls p t2.
Proof. induction t1 as [|ev t1 IH]; simpl; [reflexivity | rewrite IH; lia]. Qed.

Lemma count_calls_none p t :
  Forall (λ ev, p ev = false) t → count_calls p t = 0.
Proof. induction 1 as [|ev t Hev _ IH]; simpl; [|rewrite Hev, IH]; reflexivity. Qed.

Section Calls.
Context {W : Type} `{Collaborators W}.
Variable m : userDataDiskManager.

Lemma attach_calls_in :
  calls_in (λ ev, ev ∈ attach_calls m) (attachPersistentDiskToLimaDisk m).
Proof.
  unfold attachPersistentDiskToLimaDisk, persistentDiskExists, attach_calls.
  repeat calls_in_step; in_list.
Qed.

Lemma reconcile_calls_in : calls_in (λ ev, ev ∈ reconcile_calls m) (reconcile m).
Proof.
  assert (Ha : calls_in (λ ev, ev ∈ reconcile_calls m)
                 (attachPersistentDiskToLimaDisk m)).
  { intros w. eapply Forall_impl; [apply attach_calls_in|].
    intros ev Hev. unfold reconcile_calls. apply elem_of_app. by right. }
  unfold reconcile, normalizeFormat, verifyLink, createAndAttach, limaDiskExists,
    getDiskInfo, convertToRaw, createLimaDisk.
  unfold reconcile_calls, attach_calls in *.
  repeat (first [ exact Ha | calls_in_step ]); in_list.
Qed.

Lemma clearLock_calls_in :
  calls_in (λ ev, ev ∈ [EvStat (lockPathOf m); EvLima unlockArgs]) (clearLock m).
Proof.
  unfold clearLock, limaDiskIsLocked, unlockLimaDisk.
  repeat calls_in_step; in_list.
Qed.

Lemma EnsureUserDataDisk_calls_in :
  calls_in (λ ev, ev ∈ reconcile_calls m ++ [EvStat (lockPathOf m); EvLima unlockArgs])
           (EnsureUserDataDisk m).
Proof.
  intros w. rewrite EnsureUserDataDisk_phases. revert w.
  apply calls_in_bind.
  - intros w. eapply Forall_impl; [apply reconcile_calls_in|].
    intros ev Hev. apply elem_of_app. by left.
  - intros _ w. eapply Forall_impl; [apply clearLock_calls_in|].
    intros ev Hev. apply elem_of_app. by right.
Qed.

Lemma reconcile_no_unlock w : Forall (λ ev, is_unlock ev = false) (tr (reconcile m w)).
Proof.
  eapply Forall_impl; [apply reconcile_calls_in|].
  intros ev Hev. unfold reconcile_calls, attach_calls in Hev. simpl in Hev.
  repeat (apply elem_of_cons in Hev as [->|Hev]; [reflexivity|]).
  by apply elem_of_nil in Hev.
Qed.

End Calls.

(** ** Existence query, lock clearance and the first error *)
Section Reconciler.
Context {W : Type} `{Collaborators W}.
Variable m : userDataDiskManager.

Lemma tr_bind {A B} (c : M W A) (k : A → M W B) w :
  tr (bind c k w) =
  tr (c w) ++ match val (c w) with
              | Ok a => tr (k a (st (c w)))
              | Err _ => []
              end.
Proof.
  rewrite bind_unfold. destruct (val (c w)); simpl; [reflexivity|].
  by rewrite app_nil_r.
Qed.

Lemma limaDiskExists_run w :
  ∃ b, limaDiskExists w = mkRes (Ok b) (lcc_run lsArgs w).2 [EvLima lsArgs].
Proof.
  unfold limaDiskExists, call. rewrite bind_unfold.
  destruct (lcc_run lsArgs w) as [[out [e|]] w1]; simpl; [by eexists|].
  destruct (json_Unmarshal_Disk out); by eexists.
Qed.

(** C6: whatever way the existence query goes wrong (the command fails, its
    output does not decode, or the decoded record has another name),
    [limaDiskExists] answers false without an error, and the run is the
    query followed by the creation branch (create the disk, then link
    repair) and lock clearance: its second call is the registry's create,
    and any error it returns is one of the creation branch or of lock
    clearance. *)
Theorem limaDiskExists_fails_open w :
  let oe := (lcc_run lsArgs w).1 in
  let w1 := (lcc_run lsArgs w).2 in
  (oe.2 ≠ None
   ∨ (∃ e, json_Unmarshal_Disk oe.1 = inl e)
   ∨ (∃ d, json_Unmarshal_Disk oe.1 = inr d ∧ Name d ≠ diskName)) →
  limaDiskExists w = mkRes (Ok false) w1 [EvLima lsArgs]
  ∧ EnsureUserDataDisk m w
    = after_calls [EvLima lsArgs]
        (bind (bind createLimaDisk (λ _, attachPersistentDiskToLimaDisk m))
              (λ _, clearLock m) w1)
  ∧ (∃ rest, tr (EnsureUserDataDisk m w)
             = EvLima lsArgs :: EvLima createArgs :: rest).
Proof.
  intros oe w1 Hout.
  assert (Hq : limaDiskExists w = mkRes (Ok false) w1 [EvLima lsArgs]).
  { subst oe w1. unfold limaDiskExists, call. rewrite bind_unfold.
    destruct (lcc_run lsArgs w) as [[out [e|]] w']; simpl in *; [reflexivity|].
    destruct Hout as [Hne | [[e He] | (d & Hd & Hname)]].
    - congruence.
    - rewrite He. reflexivity.
    - rewrite Hd. simpl. apply String.eqb_neq in Hname. rewrite Hname.
      reflexivity. }
  assert (He : EnsureUserDataDisk m w
               = after_calls [EvLima lsArgs]
                   (bind (bind createLimaDisk (λ _, attachPersistentDiskToLimaDisk m))
                         (λ _, clearLock m) w1)).
  { rewrite EnsureUserDataDisk_phases. unfold reconcile. rewrite bind_assoc.
    rewrite bind_unfold, Hq. reflexivity. }
  split; [exact Hq|]. split; [exact He|].
  rewrite He. unfold after_calls; simpl.
  rewrite bind_assoc, tr_bind. unfold createLimaDisk at 1.
  rewrite tr_bind. unfold call at 1.
  destruct (lcc_run createArgs w1) as [r w2]. simpl. by eexists.
Qed.

(** C8: when the run gets to lock clearance, from either branch, it stats
    the lock marker and calls the registry's unlock exactly when that stat
    succeeds; a failing unlock is the error of the run, a successful or
    skipped one ends the run without error. *)
Theorem clearLock_when_locked w :
  val (reconcile m w) = Ok tt →
  let w1 := st (reconcile m w) in
  let locked := is_nil (fs_Stat (lockPathOf m) w1).1 in
  let unlock := lcc_run unlockArgs (fs_Stat (lockPathOf m) w1).2 in
  tr (EnsureUserDataDisk m w)
  = tr (reconcile m w)
    ++ EvStat (lockPathOf m) :: (if locked then [EvLima unlockArgs] else [])
  ∧ count_calls is_unlock (tr (EnsureUserDataDisk m w)) = (if locked then 1 else 0)
  ∧ val (EnsureUserDataDisk m w)
    = (if locked then
         match unlock.1.2 with
         | Some _ =>
             Err (Errorf ("failed to unlock disk, debug logs:" ++ newline ++ "%s")%string
                         [unlock.1.1])
         | None => Ok tt
         end
       else Ok tt).
Proof.
  intros Hrec w1 locked unlock.
  assert (Hrun :
    EnsureUserDataDisk m w = after_calls (tr (reconcile m w)) (clearLock m w1)).
  { rewrite EnsureUserDataDisk_phases, (bind_Ok _ _ _ tt Hrec). reflexivity. }
  assert (Hclear :
    clearLock m w1
    = mkRes (if locked then
               match unlock.1.2 with
               | Some _ =>
                   Err (Errorf ("failed to unlock disk, debug logs:" ++ newline ++ "%s")%string
                               [unlock.1.1])
               | None => Ok tt
               end
             else Ok tt)
            (if locked then unlock.2 else (fs_Stat (lockPathOf m) w1).2)
            (EvStat (lockPathOf m) :: (if locked then [EvLima unlockArgs] else []))).
  { subst locked unlock. unfold clearLock, limaDiskIsLocked, unlockLimaDisk, call.
    rewrite !bind_unfold. simpl.
    destruct (fs_Stat (lockPathOf m) w1) as [[e|] w2]; simpl; [reflexivity|].
    rewrite !bind_unfold. simpl.
    destruct (lcc_run unlockArgs w2) as [[out [e|]] w3]; reflexivity. }
  rewrite Hrun, Hclear. unfold after_calls; simpl.
  split; [reflexivity|]. split; [|reflexivity].
  rewrite count_calls_app, (count_calls_none _ _ (reconcile_no_unlock m w)).
  destruct locked; reflexivity.
Qed.

End Reconciler.

(** ** Failures before lock clearance *)
Section FirstError.
Context {W : Type} `{Collaborators W}.
Variable m : userDataDiskManager.

Local Abbreviation disk := (diskPathOf m).
Local Abbreviation lima := (limaPathOf m).
Local Abbreviation vz := (String.eqb (config_VMType m) "vz").
Local Abbreviation attach := (attachPersistentDiskToLimaDisk m).

Lemma normalizeFormat_unfold w :
  normalizeFormat m w =
  if vz then
    bind (getDiskInfo m disk)
      (λ info, if negb (String.eqb (Format info) "raw")
               then bind (convertToRaw m disk) (λ _, attach)
               else ret tt) w
  else ret tt w.
Proof. unfold normalizeFormat. destruct vz; reflexivity. Qed.

Lemma verifyLink_unfold w :
  let l := fs_ReadlinkIfPossible lima w in
  verifyLink m w =
  match l.1.2 with
  | Some err => mkRes (Err err) l.2 [EvReadlink lima]
  | None =>
      if negb (String.eqb l.1.1 disk)
      then after_calls [EvReadlink lima] (attach l.2)
      else mkRes (Ok tt) l.2 [EvReadlink lima]
  end.
Proof.
  unfold verifyLink, call. rewrite bind_unfold.
  destruct (fs_ReadlinkIfPossible lima w) as [[loc [e|]] w']; simpl; [reflexivity|].
  destruct (negb (String.eqb loc disk)); reflexivity.
Qed.

Lemma fails_before_clearance_reconcile w e wf t :
  fails_before_clearance m w e wf t → reconcile m w = mkRes (Err e) wf t.
Proof.
  unfold reconcile.
  destruct 1 as [e q i Hq Hvz Hi
                |e info q i c Hq Hvz Hi Hfmt Hc
                |e info q i c a Hq Hvz Hi Hfmt Hc Ha
                |e q n l Hq Hn Hl
                |e q n l a Hq Hn Hl Hloc Ha
                |e q c Hq Hc
                |e q c a Hq Hc Ha];
    rewrite (bind_Ok _ _ _ _ Hq); fold q.
  - rewrite bind_unfold, normalizeFormat_unfold, Hvz, (bind_Err _ _ _ _ Hi).
    reflexivity.
  - apply String.eqb_neq in Hfmt.
    rewrite bind_unfold, normalizeFormat_unfold, Hvz, (bind_Ok _ _ _ _ Hi), Hfmt.
    simpl. fold i. rewrite (bind_Err _ _ _ _ Hc). reflexivity.
  - apply String.eqb_neq in Hfmt.
    rewrite bind_unfold, normalizeFormat_unfold, Hvz, (bind_Ok _ _ _ _ Hi), Hfmt.
    simpl. fold i. rewrite (bind_Ok _ _ _ _ Hc). fold c a. simpl. rewrite Ha.
    unfold after_calls; simpl. by rewrite <- ?app_assoc.
  - rewrite (bind_Ok _ _ _ _ Hn). fold n. rewrite verifyLink_unfold. fold l.
    rewrite Hl. unfold after_calls; simpl. by rewrite <- ?app_assoc.
  - apply String.eqb_neq in Hloc.
    rewrite (bind_Ok _ _ _ _ Hn). fold n. rewrite verifyLink_unfold. fold l.
    rewrite Hl, Hloc. simpl. fold a. unfold after_calls; simpl. rewrite Ha.
    by rewrite <- ?app_assoc.
  - unfold createAndAttach. rewrite (bind_Err _ _ _ _ Hc). reflexivity.
  - unfold createAndAttach. rewrite (bind_Ok _ _ _ _ Hc). fold c a.
    unfold after_calls; simpl. rewrite Ha. by rewrite <- ?app_assoc.
Qed.

Lemma reconcile_Err_inv w e :
  val (reconcile m w) = Err e →
  fails_before_clearance m w e (st (reconcile m w)) (tr (reconcile m w)).
Proof.
  intros Hrec.
  destruct (limaDiskExists_run w) as [b Hq].
  assert (Hvq : val (limaDiskExists w) = Ok b) by (by rewrite Hq).
  cut (∃ wf t, fails_before_clearance m w e wf t).
  { intros (wf & t & Hf). pose proof (fails_before_clearance_reconcile _ _ _ _ Hf) as Hr.
    rewrite Hr. exact Hf. }
  unfold reconcile in Hrec. rewrite (bind_Ok _ _ _ _ Hvq) in Hrec. simpl in Hrec.
  destruct b.
  - rewrite bind_unfold in Hrec.
    destruct (val (normalizeFormat m (st (limaDiskExists w)))) as [[]|e'] eqn:Hn;
      simpl in Hrec.
    + rewrite verifyLink_unfold in Hrec. simpl in Hrec.
      destruct (fs_ReadlinkIfPossible lima (st (normalizeFormat m (st (limaDiskExists w)))))
        as [[loc [e'|]] w'] eqn:Hl; simpl in Hrec.
      * inversion Hrec; subst e'. do 2 eexists.
        apply fail_readlink; [done | done | by rewrite Hl].
      * destruct (String.eqb loc disk) eqn:Hloc; simpl in Hrec; [discriminate|].
        apply String.eqb_neq in Hloc. do 2 eexists.
        apply fail_repair; [done | done | by rewrite Hl | by rewrite Hl
                            | by rewrite Hl].
    + inversion Hrec; subst e'. clear Hrec.
      rewrite normalizeFormat_unfold in Hn.
      destruct vz eqn:Hvz; [|discriminate].
      rewrite bind_unfold in Hn.
      destruct (val (getDiskInfo m disk (st (limaDiskExists w)))) as [info|e'] eqn:Hi;
        simpl in Hn.
      * destruct (String.eqb (Format info) "raw") eqn:Hfmt; simpl in Hn;
          [discriminate|].
        apply String.eqb_neq in Hfmt. rewrite bind_unfold in Hn.
        destruct (val (convertToRaw m disk (st (getDiskInfo m disk (st (limaDiskExists w))))))
          as [[]|e'] eqn:Hc; simpl in Hn.
        -- do 2 eexists. by eapply fail_reattach.
        -- inversion Hn; subst e'. do 2 eexists. by eapply fail_convert.
      * inversion Hn; subst e'. do 2 eexists. by apply fail_inspect.
  - unfold createAndAttach in Hrec. rewrite bind_unfold in Hrec.
    destruct (val (createLimaDisk (st (limaDiskExists w)))) as [[]|e'] eqn:Hc;
      simpl in Hrec.
    + do 2 eexists. by apply fail_attach.
    + inversion Hrec; subst e'. do 2 eexists. by apply fail_create.
Qed.

Lemma fails_before_clearance_run w e wf t :
  fails_before_clearance m w e wf t →
  EnsureUserDataDisk m w = mkRes (Err e) wf t
  ∧ count_calls is_unlock (tr (EnsureUserDataDisk m w)) = 0
  ∧ EvLima unlockArgs ∉ tr (EnsureUserDataDisk m w).
Proof.
  intros Hf. pose proof (fails_before_clearance_reconcile _ _ _ _ Hf) as Hr.
  assert (He : EnsureUserDataDisk m w = mkRes (Err e) wf t).
  { rewrite EnsureUserDataDisk_phases, bind_unfold, Hr. reflexivity. }
  assert (Hno : Forall (λ ev, is_unlock ev = false) (tr (EnsureUserDataDisk m w))).
  { rewrite He. simpl. replace t with (tr (reconcile m w)) by (by rewrite Hr).
    apply reconcile_no_unlock. }
  split; [exact He|]. split; [by apply count_calls_none|].
  intros Hin. rewrite Forall_forall in Hno. by apply Hno in Hin.
Qed.

End FirstError.

(** ** How often the conversion runs *)
Section Conversion.
Context {W : Type} `{Collaborators W}.
Variable m : userDataDiskManager.

Local Abbreviation disk := (diskPathOf m).
Local Abbreviation lima := (limaPathOf m).
Local Abbreviation qcow := (qcowPathOf (diskPathOf m)).
Local Abbreviation vz := (String.eqb (config_VMType m) "vz").
Local Abbreviation attach := (attachPersistentDiskToLimaDisk m).

Lemma conversion_reachedb_spec w :
  conversion_reached m w ↔ conversion_reachedb m w = true.
Proof.
  unfold conversion_reached, conversion_reachedb. split.
  - intros (-> & -> & info & -> & Hfmt%String.eqb_neq & ->).
    by rewrite Hfmt.
  - destruct (val (limaDiskExists w)) as [[]|]; try done.
    destruct vz; [|done].
    destruct (val (getDiskInfo m disk _)) as [info|]; [|done].
    simpl. intros [Hfmt Hmv]%andb_prop.
    apply negb_true_iff, String.eqb_neq in Hfmt.
    repeat split; try done. exists info. repeat split; try done.
    by destruct (fs_Rename disk qcow _).1.
Qed.

Lemma count_calls_bind {A B} p (c : M W A) (k : A → M W B) w :
  count_calls p (tr (bind c k w)) =
  count_calls p (tr (c w))
  + match val (c w) with
    | Ok a => count_calls p (tr (k a (st (c w))))
    | Err _ => 0
    end.
Proof. rewrite tr_bind, count_calls_app. by destruct (val (c w)). Qed.

Lemma calls_in_count {A} p (c : M W A) w :
  calls_in (λ ev, p ev = false) c → count_calls p (tr (c w)) = 0.
Proof. intros Hc. apply count_calls_none, Hc. Qed.

Lemma attach_no_convert : calls_in (λ ev, is_convert ev = false) attach.
Proof.
  unfold attachPersistentDiskToLimaDisk, persistentDiskExists.
  repeat calls_in_step; reflexivity.
Qed.

Lemma clearLock_no_convert : calls_in (λ ev, is_convert ev = false) (clearLock m).
Proof.
  unfold clearLock, limaDiskIsLocked, unlockLimaDisk.
  repeat calls_in_step; reflexivity.
Qed.

Lemma verifyLink_no_convert : calls_in (λ ev, is_convert ev = false) (verifyLink m).
Proof.
  unfold verifyLink.
  repeat (first [ exact attach_no_convert | calls_in_step ]); reflexivity.
Qed.

Lemma createAndAttach_no_convert :
  calls_in (λ ev, is_convert ev = false) (createAndAttach m).
Proof.
  unfold createAndAttach, createLimaDisk.
  repeat (first [ exact attach_no_convert | calls_in_step ]); reflexivity.
Qed.

Lemma getDiskInfo_no_convert p :
  calls_in (λ ev, is_convert ev = false) (getDiskInfo m p).
Proof. unfold getDiskInfo. repeat calls_in_step; reflexivity. Qed.

Lemma limaDiskExists_no_convert :
  calls_in (λ ev, is_convert ev = false) (@limaDiskExists W _).
Proof. unfold limaDiskExists. repeat calls_in_step; reflexivity. Qed.

Lemma convertToRaw_run w :
  let r := fs_Rename disk qcow w in
  let c := ecc_run (qemuImg m) (convertArgs qcow disk) r.2 in
  convertToRaw m disk w =
  match r.1 with
  | Some err =>
      mkRes (Err (ErrorfW "faied to rename disk: %w" [] err)) r.2
            [EvRename disk qcow]
  | None =>
      mkRes match c.1.2 with
            | Some err =>
                Err (ErrorfW "failed to convert disk %q from qcow2 to raw: %w"
                             [disk] err)
            | None => Ok tt
            end
            c.2
            [EvRename disk qcow; EvExec (qemuImg m) (convertArgs qcow disk)]
  end.
Proof.
  unfold convertToRaw, call. rewrite bind_unfold.
  destruct (fs_Rename disk qcow w) as [[e|] w1]; simpl; [reflexivity|].
  rewrite bind_unfold.
  destruct (ecc_run (qemuImg m) (convertArgs qcow disk) w1) as [[out [e|]] w2];
    reflexivity.
Qed.

Lemma count_calls_bind_none {A B} p (c : M W A) (k : A → M W B) w :
  (∀ a, calls_in (λ ev, p ev = false) (k a)) →
  count_calls p (tr (bind c k w)) = count_calls p (tr (c w)).
Proof.
  intros Hk. rewrite count_calls_bind.
  destruct (val (c w)) as [a|e]; [|lia].
  rewrite (calls_in_count _ _ _ (Hk a)). lia.
Qed.

Lemma count_calls_bind_none_l {A B} p (c : M W A) (k : A → M W B) w a :
  calls_in (λ ev, p ev = false) c → val (c w) = Ok a →
  count_calls p (tr (bind c k w)) = count_calls p (tr (k a (st (c w)))).
Proof.
  intros Hc Hv. rewrite count_calls_bind, Hv, (calls_in_count _ _ _ Hc).
  reflexivity.
Qed.

Lemma convert_count_convertToRaw w :
  count_calls is_convert (tr (convertToRaw m disk w))
  = match (fs_Rename disk qcow w).1 with None => 1 | Some _ => 0 end.
Proof.
  rewrite convertToRaw_run. by destruct (fs_Rename disk qcow w).1.
Qed.

Lemma convert_count_reconcile w :
  count_calls is_convert (tr (EnsureUserDataDisk m w))
  = count_calls is_convert (tr (reconcile m w)).
Proof.
  rewrite EnsureUserDataDisk_phases. apply count_calls_bind_none.
  intros _. apply clearLock_no_convert.
Qed.

Lemma convert_count_reached w :
  conversion_reached m w → count_calls is_convert (tr (EnsureUserDataDisk m w)) = 1.
Proof.
  intros (Hq & Hvz & info & Hi & Hfmt & Hmv).
  apply String.eqb_neq in Hfmt.
  rewrite convert_count_reconcile. unfold reconcile.
  rewrite (count_calls_bind_none_l _ _ _ _ _ limaDiskExists_no_convert Hq).
  rewrite count_calls_bind_none by (intros _; apply verifyLink_no_convert).
  rewrite normalizeFormat_unfold, Hvz.
  rewrite (count_calls_bind_none_l _ _ _ _ _ (getDiskInfo_no_convert _) Hi).
  rewrite Hfmt. simpl.
  rewrite count_calls_bind_none by (intros _; apply attach_no_convert).
  by rewrite convert_count_convertToRaw, Hmv.
Qed.

Lemma convert_count_not_reached w :
  ¬ conversion_reached m w → count_calls is_convert (tr (EnsureUserDataDisk m w)) = 0.
Proof.
  intros Hnot. rewrite convert_count_reconcile. unfold reconcile.
  destruct (limaDiskExists_run w) as [b Hq].
  assert (Hvq : val (limaDiskExists w) = Ok b) by (by rewrite Hq).
  rewrite (count_calls_bind_none_l _ _ _ _ _ limaDiskExists_no_convert Hvq).
  destruct b; [|apply (calls_in_count _ _ _ createAndAttach_no_convert)].
  rewrite count_calls_bind_none by (intros _; apply verifyLink_no_convert).
  rewrite normalizeFormat_unfold.
  destruct vz eqn:Hvz; [|reflexivity].
  rewrite count_calls_bind, (calls_in_count _ _ _ (getDiskInfo_no_convert _)).
  destruct (val (getDiskInfo m disk (st (limaDiskExists w)))) as [info|e] eqn:Hi;
    simpl; [|reflexivity].
  destruct (String.eqb (Format info) "raw") eqn:Hfmt; simpl; [reflexivity|].
  apply String.eqb_neq in Hfmt.
  rewrite count_calls_bind_none by (intros _; apply attach_no_convert).
  rewrite convert_count_convertToRaw.
  destruct (fs_Rename disk qcow (st (getDiskInfo m disk (st (limaDiskExists w))))).1
    eqn:Hmv; [reflexivity|].
  exfalso. apply Hnot. unfold conversion_reached. repeat split; try done.
  by exists info.
Qed.

End Conversion.

(** ** Link repair, step by step *)
Section LinkRepair.
Context {W : Type} `{Collaborators W}.
Variable m : userDataDiskManager.

Local Abbreviation disk := (diskPathOf m).
Local Abbreviation lima := (limaPathOf m).
Local Abbreviation dir := (path.Dir (diskPathOf m)).
Local Abbreviation attach := (attachPersistentDiskToLimaDisk m).

Lemma attach_run w :
  let s := fs_Stat disk w in
  attach w = after_calls [EvStat disk]
               (match s.1 with
                | None => clearSlotAndLink m s.2
                | Some _ => bind (moveSlot m) (λ _, clearSlotAndLink m) s.2
                end).
Proof.
  unfold attachPersistentDiskToLimaDisk, persistentDiskExists.
  rewrite bind_assoc, bind_call, bind_ret. cbn zeta.
  destruct (fs_Stat disk w).1 as [e|]; cbn [negb is_nil].
  - reflexivity.
  - by rewrite bind_ret.
Qed.

Lemma moveSlot_run w :
  let d := fs_Stat dir w in
  let missing := match d.1 with
                 | Some e => errors_Is_ErrNotExist e
                 | None => false
                 end in
  let mk := fs_MkdirAll dir 493 d.2 in
  let mv := fs_Rename lima disk (if missing then mk.2 else d.2) in
  moveSlot m w =
  if missing then
    match mk.1 with
    | Some err =>
        mkRes (Err (ErrorfW "could not create persistent disk directory: %w" [] err))
              mk.2 [EvStat dir; EvMkdirAll dir 493]
    | None =>
        mkRes match mv.1 with
              | Some err =>
                  Err (ErrorfW "could not move data disk to persistent path: %w"
                               [] err)
              | None => Ok tt
              end
              mv.2 [EvStat dir; EvMkdirAll dir 493; EvRename lima disk]
    end
  else
    mkRes match mv.1 with
          | Some err =>
              Err (ErrorfW "could not move data disk to persistent path: %w" [] err)
          | None => Ok tt
          end
          mv.2 [EvStat dir; EvRename lima disk].
Proof.
  cbv zeta. unfold moveSlot. repeat mstep.
  destruct (fs_Stat dir w).1 as [e|]; [destruct (errors_Is_ErrNotExist e)|];
    repeat mstep.
  - destruct (fs_MkdirAll dir 493 (fs_Stat dir w).2).1 as [e'|]; repeat mstep;
      [reflexivity|].
    by destruct (fs_Rename lima disk _).1.
  - by destruct (fs_Rename lima disk _).1.
  - by destruct (fs_Rename lima disk _).1.
Qed.

Lemma clearSlotAndLink_run w :
  let s := fs_Stat lima w in
  let rm := fs_Remove lima s.2 in
  clearSlotAndLink m w =
  match s.1 with
  | None =>
      match rm.1 with
      | Some err => mkRes (Err err) rm.2 [EvStat lima; EvRemove lima]
      | None =>
          let ln := fs_SymlinkIfPossible disk lima rm.2 in
          mkRes (of_err ln.1) ln.2 [EvStat lima; EvRemove lima; EvSymlink disk lima]
      end
  | Some err =>
      if errors_Is_ErrNotExist err then
        let ln := fs_SymlinkIfPossible disk lima s.2 in
        mkRes (of_err ln.1) ln.2 [EvStat lima; EvSymlink disk lima]
      else mkRes (Err err) s.2 [EvStat lima]
  end.
Proof.
  cbv zeta. unfold clearSlotAndLink, of_err. repeat mstep.
  destruct (fs_Stat lima w).1 as [e|]; [destruct (errors_Is_ErrNotExist e)|];
    repeat mstep.
  - by destruct (fs_SymlinkIfPossible disk lima _).1.
  - reflexivity.
  - destruct (fs_Remove lima (fs_Stat lima w).2).1 as [e'|]; repeat mstep;
      [reflexivity|].
    by destruct (fs_SymlinkIfPossible disk lima _).1.
Qed.

(** On success the calls of [clearSlotAndLink] end with the symlink, the
    removal just before it when there is one. *)
Lemma clearSlotAndLink_Ok w :
  val (clearSlotAndLink m w) = Ok tt →
  tr (clearSlotAndLink m w)
  = EvStat lima :: (match (fs_Stat lima w).1 with
                    | None => [EvRemove lima]
                    | Some _ => []
                    end) ++ [EvSymlink disk lima].
Proof.
  rewrite clearSlotAndLink_run. cbv zeta.
  destruct (fs_Stat lima w).1 as [e|].
  - destruct (errors_Is_ErrNotExist e); simpl; [reflexivity | discriminate].
  - destruct (fs_Remove lima _).1 as [e|]; simpl; [discriminate | reflexivity].
Qed.

Lemma clearSlotAndLink_calls :
  calls_in (λ ev, ev ∈ [EvStat lima; EvRemove lima; EvSymlink disk lima])
           (clearSlotAndLink m).
Proof. unfold clearSlotAndLink. repeat calls_in_step; in_list. Qed.

End LinkRepair.

(** ** Link repair, link verification and format normalization *)
Section Steps.
Context {W : Type} `{Collaborators W}.
Variable m : userDataDiskManager.

Local Abbreviation disk := (diskPathOf m).
Local Abbreviation lima := (limaPathOf m).
Local Abbreviation dir := (path.Dir (diskPathOf m)).
Local Abbreviation qcow := (qcowPathOf (diskPathOf m)).
Local Abbreviation vz := (String.eqb (config_VMType m) "vz").
Local Abbreviation attach := (attachPersistentDiskToLimaDisk m).

Lemma clearSlotAndLink_no_move w :
  (EvRename lima disk ∉ tr (clearSlotAndLink m w))
  ∧ (EvMkdirAll dir 493 ∉ tr (clearSlotAndLink m w)).
Proof.
  pose proof (clearSlotAndLink_calls m w) as Hc. rewrite Forall_forall in Hc.
  split; intros Hin; apply Hc in Hin; simpl in Hin;
    repeat (apply elem_of_cons in Hin as [Hin|Hin]; [discriminate|]);
    by apply elem_of_nil in Hin.
Qed.

(** C7: link repair moves the slot's file to the persistent path exactly
    when the stat of the persistent file fails, after creating the parent
    directory (MkdirAll, mode 0755) when the stat of that directory says it
    does not exist; when the persistent file is there, nothing is moved and
    an occupant of the slot (its stat succeeds) is removed; and a link
    repair that succeeds ends with the stat of the slot, the removal of the
    occupant that stat found, and the creation of the symlink at the slot
    pointing at the persistent path. *)
Theorem link_repair_moves_iff_absent w :
  let s := fs_Stat disk w in
  let d := fs_Stat dir s.2 in
  let missing := match d.1 with
                 | Some e => errors_Is_ErrNotExist e
                 | None => false
                 end in
  let mk := fs_MkdirAll dir 493 d.2 in
  let w' := match s.1 with
            | None => s.2
            | Some _ => st (moveSlot m s.2)
            end in
  (EvRename lima disk ∈ tr (attach w) → s.1 ≠ None)
  ∧ (EvMkdirAll dir 493 ∈ tr (attach w) → s.1 ≠ None ∧ missing = true)
  ∧ (s.1 ≠ None → (missing = true → mk.1 = None) →
     ∃ rest, tr (attach w)
             = EvStat disk :: EvStat dir
               :: (if missing then [EvMkdirAll dir 493] else [])
               ++ EvRename lima disk :: rest)
  ∧ (s.1 = None →
     ∃ rest, tr (attach w)
             = EvStat disk :: EvStat lima
               :: (if is_nil (fs_Stat lima s.2).1 then [EvRemove lima] else [])
               ++ rest)
  ∧ (val (attach w) = Ok tt →
     ∃ pre, tr (attach w)
            = pre ++ EvStat lima
                  :: (if is_nil (fs_Stat lima w').1 then [EvRemove lima] else [])
                  ++ [EvSymlink disk lima]).
Proof.
  intros s d missing mk w'. rewrite attach_run. fold s.
  split; [|split; [|split; [|split]]].
  - destruct s.1 as [e|]; [done|]. simpl.
    intros [Hin|Hin]%elem_of_cons; [discriminate|].
    by apply clearSlotAndLink_no_move in Hin.
  - destruct s.1 as [e|]; simpl.
    + intros [Hin|Hin]%elem_of_cons; [discriminate|].
      split; [done|]. rewrite tr_bind, moveSlot_run in Hin. fold d missing mk in Hin.
      destruct missing; [done|exfalso]. simpl in Hin.
      apply elem_of_cons in Hin as [Hin|Hin]; [discriminate|].
      apply elem_of_cons in Hin as [Hin|Hin]; [discriminate|].
      destruct (fs_Rename lima disk d.2).1; [by apply elem_of_nil in Hin|].
      by apply clearSlotAndLink_no_move in Hin.
    + intros [Hin|Hin]%elem_of_cons; [discriminate|].
      by apply clearSlotAndLink_no_move in Hin.
  - intros Habs Hmk. destruct s.1 as [e|]; [|done]. simpl.
    rewrite tr_bind, moveSlot_run. fold d missing mk.
    destruct missing; simpl.
    + rewrite Hmk by done. simpl. by eexists.
    + by eexists.
  - intros Hs. rewrite Hs. simpl. rewrite clearSlotAndLink_run. cbv zeta.
    destruct (fs_Stat lima s.2).1 as [e|]; simpl.
    + destruct (errors_Is_ErrNotExist e); simpl; by eexists.
    + destruct (fs_Remove lima _).1; simpl; by eexists.
  - subst w'. destruct s.1 as [e|]; simpl.
    + rewrite bind_unfold.
      destruct (val (moveSlot m s.2)) as [[]|e'] eqn:Hmv; [|discriminate].
      simpl. intros Hok. rewrite (clearSlotAndLink_Ok _ _ Hok).
      exists (EvStat disk :: tr (moveSlot m s.2)).
      destruct (fs_Stat lima _).1; reflexivity.
    + intros Hok. rewrite (clearSlotAndLink_Ok _ _ Hok).
      exists [EvStat disk]. destruct (fs_Stat lima _).1; reflexivity.
Qed.

(** C3, as amended: when the registry has the disk and format
    normalization has not failed, the run reads the link at the slot; if
    the read fails, the run ends with the error of the read; otherwise, if
    the result differs from the persistent path (the empty result of a slot
    that is no symlink included), the run goes on with link repair, then
    lock clearance, and the difference itself is no error; if the result
    is the persistent path, it goes on with lock clearance at once. *)
Theorem link_verification_repairs w :
  let q := limaDiskExists w in
  let n := normalizeFormat m (st q) in
  let l := fs_ReadlinkIfPossible lima (st n) in
  val q = Ok true → val n = Ok tt →
  (∀ err, l.1.2 = Some err →
     EnsureUserDataDisk m w
     = mkRes (Err err) l.2 (tr q ++ tr n ++ [EvReadlink lima]))
  ∧ (l.1.2 = None → l.1.1 ≠ disk →
     EnsureUserDataDisk m w
     = after_calls (tr q ++ tr n ++ [EvReadlink lima])
         (bind attach (λ _, clearLock m) l.2))
  ∧ (l.1.2 = None → l.1.1 = "" → disk ≠ "" →
     EnsureUserDataDisk m w
     = after_calls (tr q ++ tr n ++ [EvReadlink lima])
         (bind attach (λ _, clearLock m) l.2))
  ∧ (l.1.2 = None → l.1.1 = disk →
     EnsureUserDataDisk m w
     = after_calls (tr q ++ tr n ++ [EvReadlink lima]) (clearLock m l.2)).
Proof.
  intros q n l Hq Hn.
  assert (Hrun :
    EnsureUserDataDisk m w
    = after_calls (tr q ++ tr n)
        (bind (verifyLink m) (λ _, clearLock m) (st n))).
  { rewrite EnsureUserDataDisk_phases. unfold reconcile.
    rewrite bind_assoc, (bind_Ok _ _ _ _ Hq). fold q.
    rewrite bind_assoc, (bind_Ok _ _ _ _ Hn). fold n.
    by rewrite after_calls_app. }
  assert (Hne : l.1.2 = None → l.1.1 ≠ disk →
    EnsureUserDataDisk m w
    = after_calls (tr q ++ tr n ++ [EvReadlink lima])
        (bind attach (λ _, clearLock m) l.2)).
  { intros Hl Hloc%String.eqb_neq. rewrite Hrun, bind_unfold, verifyLink_unfold.
    fold l. rewrite Hl, Hloc. simpl.
    rewrite bind_unfold. unfold after_calls; simpl.
    destruct (val (attach l.2)); simpl; by rewrite <- ?app_assoc. }
  split; [|split; [exact Hne|split]].
  - intros err Hl. rewrite Hrun, bind_unfold, verifyLink_unfold.
    fold l. rewrite Hl. unfold after_calls; simpl. by rewrite <- ?app_assoc.
  - intros Hl Hempty Hdisk. apply Hne; [done|]. congruence.
  - intros Hl Hloc%String.eqb_eq. rewrite Hrun, bind_unfold, verifyLink_unfold.
    fold l. rewrite Hl, Hloc. simpl. unfold after_calls; simpl.
    by rewrite <- ?app_assoc.
Qed.

(** What format normalization does when the inspection reports a format
    other than raw: the persistent file is moved to its [.qcow2] sibling,
    the image tool converts from qcow2, from that sibling to the persistent
    path, and link repair follows; a failing move or conversion ends the
    run. *)
Lemma normalization_converts w info :
  let q := limaDiskExists w in
  let i := getDiskInfo m disk (st q) in
  let mv := fs_Rename disk (disk ++ ".qcow2")%string (st i) in
  let cmd := EvExec (qemuImg m)
               ["convert"; "-f"; "qcow2"; "-O"; "raw";
                (disk ++ ".qcow2")%string; disk] in
  let cv := ecc_run (qemuImg m)
              ["convert"; "-f"; "qcow2"; "-O"; "raw";
               (disk ++ ".qcow2")%string; disk] mv.2 in
  val q = Ok true → vz = true → val i = Ok info → Format info ≠ "raw" →
  EnsureUserDataDisk m w =
  match mv.1 with
  | Some err =>
      mkRes (Err (ErrorfW "faied to rename disk: %w" [] err)) mv.2
            (tr q ++ tr i ++ [EvRename disk (disk ++ ".qcow2")%string])
  | None =>
      match cv.1.2 with
      | Some err =>
          mkRes (Err (ErrorfW "failed to convert disk %q from qcow2 to raw: %w"
                              [disk] err))
                cv.2
                (tr q ++ tr i ++ [EvRename disk (disk ++ ".qcow2")%string; cmd])
      | None =>
          after_calls
            (tr q ++ tr i ++ [EvRename disk (disk ++ ".qcow2")%string; cmd])
            (bind attach (λ _, bind (verifyLink m) (λ _, clearLock m)) cv.2)
      end
  end.
Proof.
  intros q i mv cmd cv Hq Hvz Hi Hfmt%String.eqb_neq.
  rewrite EnsureUserDataDisk_phases. unfold reconcile.
  rewrite bind_assoc, (bind_Ok _ _ _ _ Hq). fold q. cbv beta iota.
  rewrite bind_assoc. unfold normalizeFormat. rewrite Hvz.
  rewrite bind_assoc, (bind_Ok _ _ _ _ Hi). fold i. cbv beta.
  rewrite Hfmt. cbn [negb]. rewrite !bind_assoc, bind_unfold, convertToRaw_run.
  unfold qcowPathOf, convertArgs. fold mv. fold cv. fold cmd.
  destruct mv.1 as [e|]; simpl.
  - unfold after_calls; simpl. by rewrite <- ?app_assoc.
  - destruct cv.1.2 as [e|]; simpl.
    + unfold after_calls; simpl. by rewrite <- ?app_assoc.
    + rewrite !after_calls_app. by rewrite <- ?app_assoc.
Qed.

End Steps.

(** ** The paths of the manager are distinct *)

Lemma append_nil_l (b : string) : ("" ++ b)%string = b.
Proof. reflexivity. Qed.

Lemma append_cons c (a b : string) :
  (String c a ++ b)%string = String c (a ++ b)%string.
Proof. reflexivity. Qed.

Lemma append_assoc (a b c : string) : (a ++ b ++ c = (a ++ b) ++ c)%string.
Proof.
  induction a as [|x a IH]; [reflexivity|].
  by rewrite !append_cons, IH.
Qed.

Lemma length_append (a b : string) :
  String.length (a ++ b)%string = String.length a + String.length b.
Proof.
  induction a as [|x a IH]; [reflexivity|].
  rewrite append_cons. simpl. by rewrite IH.
Qed.

Lemma last_ascii_app a b :
  last_ascii (a ++ b)%string
  = match last_ascii b with
    | Some c => Some c
    | None => last_ascii a
    end.
Proof.
  induction a as [|c a IH].
  - rewrite append_nil_l. by destruct (last_ascii b).
  - rewrite append_cons. simpl. rewrite IH.
    by destruct (last_ascii b), (last_ascii a).
Qed.

Lemma last_ascii_None s : last_ascii s = None → s = "".
Proof. destruct s as [|c s]; simpl; [done|]. by destruct (last_ascii s). Qed.

Lemma eqb_empty_last s c : last_ascii s = Some c → String.eqb s "" = false.
Proof. destruct s; [discriminate | reflexivity]. Qed.

Lemma elems_from_app_slash cur a t :
  path.elems_from cur (a ++ String "/" t)
  = path.elems_from cur a ++ path.elems_from "" t.
Proof.
  revert cur. induction a as [|c a IH]; intros cur.
  - reflexivity.
  - rewrite append_cons. simpl.
    destruct (Ascii.eqb c "/"); simpl; by rewrite IH.
Qed.

Lemma clean_elems_snoc isroot out es e :
  plain e →
  path.clean_elems isroot out (es ++ [e]) = path.clean_elems isroot out es ++ [e].
Proof.
  intros (He1 & He2 & He3). revert out.
  induction es as [|x es IH]; intros out; simpl.
  - by rewrite He1, He2, He3.
  - destruct (String.eqb x "" || String.eqb x "."); [apply IH|].
    destruct (String.eqb x ".."); [|apply IH].
    destruct out as [|top out]; [destruct isroot; apply IH|].
    destruct (String.eqb top ".."); apply IH.
Qed.

Lemma join_slash_snoc es e :
  path.join_slash (es ++ [e])
  = match es with
    | [] => e
    | _ => (path.join_slash es ++ "/" ++ e)%string
    end.
Proof.
  induction es as [|x es IH]; [reflexivity|].
  change ((x :: es) ++ [e]) with (x :: (es ++ [e])).
  destruct es as [|y es]; [reflexivity|].
  change (path.join_slash (x :: (y :: es) ++ [e]))
    with (x ++ "/" ++ path.join_slash ((y :: es) ++ [e]))%string.
  rewrite IH.
  change (path.join_slash (x :: y :: es))
    with (x ++ "/" ++ path.join_slash (y :: es))%string.
  by rewrite <- !append_assoc.
Qed.

Lemma last_ascii_assemble isroot es e c :
  last_ascii e = Some c → last_ascii (path.assemble isroot (es ++ [e])) = Some c.
Proof.
  intros He. unfold path.assemble.
  assert (Hbody : last_ascii (path.join_slash (es ++ [e])) = Some c).
  { rewrite join_slash_snoc. destruct es; [done|].
    by rewrite !last_ascii_app, He. }
  destruct isroot.
  - by rewrite last_ascii_app, Hbody.
  - by rewrite (eqb_empty_last _ _ Hbody).
Qed.

Lemma last_ascii_Clean_slash a e c :
  plain e → path.elems e = [e] → last_ascii e = Some c →
  last_ascii (path.Clean (a ++ String "/" e)) = Some c.
Proof.
  intros Hplain He Hc. unfold path.Clean, path.elems.
  rewrite elems_from_app_slash. fold (path.elems e). rewrite He.
  rewrite clean_elems_snoc by done. by apply last_ascii_assemble.
Qed.

Section Paths.
Variable m : userDataDiskManager.

Lemma last_ascii_limaPath : last_ascii (limaPathOf m) = Some "k"%char.
Proof. unfold limaPathOf. by rewrite last_ascii_app. Qed.

Lemma last_ascii_qcowPath p : last_ascii (qcowPathOf p) = Some "2"%char.
Proof. unfold qcowPathOf. by rewrite last_ascii_app. Qed.

Lemma last_ascii_lockPath : last_ascii (lockPathOf m) = Some "y"%char.
Proof.
  unfold lockPathOf, path.Join. simpl.
  destruct (String.eqb (finch_LimaHomePath m) "") eqn:Hh; [reflexivity|].
  simpl.
  assert (Hcons : ∀ a b : string, String.eqb (a ++ "/" ++ b) "" = false).
  { intros a b. by destruct a. }
  rewrite !Hcons. by apply (last_ascii_Clean_slash _ "in_use_by").
Qed.

Lemma lockPath_ne_limaPath : lockPathOf m ≠ limaPathOf m.
Proof.
  intros Heq. pose proof last_ascii_lockPath as Hl.
  rewrite Heq, last_ascii_limaPath in Hl. discriminate.
Qed.

Lemma lockPath_ne_qcowPath p : lockPathOf m ≠ qcowPathOf p.
Proof.
  intros Heq. pose proof last_ascii_lockPath as Hl.
  rewrite Heq, last_ascii_qcowPath in Hl. discriminate.
Qed.

Lemma limaPath_ne_qcowPath p : limaPathOf m ≠ qcowPathOf p.
Proof.
  intros Heq. pose proof last_ascii_limaPath as Hl.
  rewrite Heq, last_ascii_qcowPath in Hl. discriminate.
Qed.

Lemma qcowPath_ne p : qcowPathOf p ≠ p.
Proof.
  unfold qcowPathOf. intros Heq.
  apply (f_equal String.length) in Heq. rewrite length_append in Heq.
  simpl in Heq. lia.
Qed.

End Paths.

(** ** What a computation leaves unchanged *)
Section Keeps.
Context {W : Type}.
Variable I : W → W → Prop.
Context `{!PreOrder I}.

Lemma keeps_ret {A} (a : A) : keeps I (@ret W A a).
Proof. intros w. reflexivity. Qed.

Lemma keeps_fail {A} e : keeps I (@fail W A e).
Proof. intros w. reflexivity. Qed.

Lemma keeps_call {R} ev (op : W → R * W) :
  (∀ w, I w (op w).2) → keeps I (call ev op).
Proof. intros Hop w. rewrite call_run. apply Hop. Qed.

Lemma keeps_bind {A B} (c : M W A) (k : A → M W B) :
  keeps I c → (∀ a, keeps I (k a)) → keeps I (bind c k).
Proof.
  intros Hc Hk w. rewrite bind_unfold.
  destruct (val (c w)) as [a|e]; simpl; [|apply Hc].
  etrans; [apply Hc | apply Hk].
Qed.

End Keeps.

Ltac keeps_step :=
  first
    [ apply keeps_ret; tc_solve
    | apply keeps_fail; tc_solve
    | apply keeps_bind; [tc_solve| |intros ?]
    | match goal with
      | |- keeps _ (match ?x with _ => _ end) => destruct x
      | |- keeps _ (if ?x then _ else _) => destruct x
      | |- keeps _ (let _ := _ in _) => cbv zeta
      end ].

(** ** Postconditions *)
Section Post.
Context {W : Type}.

Lemma post_ret {A} (a : A) w (Q : result A → W → Prop) :
  Q (Ok a) w → post (ret a) w Q.
Proof. done. Qed.

Lemma post_fail {A} e w (Q : result A → W → Prop) :
  Q (Err e) w → post (fail e) w Q.
Proof. done. Qed.

Lemma post_call {R} ev (op : W → R * W) w (Q : result R → W → Prop) :
  Q (Ok (op w).1) (op w).2 → post (call ev op) w Q.
Proof. unfold post. by rewrite call_run. Qed.

Lemma post_bind {A B} (c : M W A) (k : A → M W B) w (Q : result B → W → Prop) :
  post c w (λ v w', match v with
                    | Ok a => post (k a) w' Q
                    | Err e => Q (Err e) w'
                    end) →
  post (bind c k) w Q.
Proof.
  unfold post. rewrite bind_unfold. by destruct (val (c w)).
Qed.

Lemma post_run {A} (c : M W A) w r (Q : result A → W → Prop) :
  c w = r → Q (val r) (st r) → post c w Q.
Proof. unfold post. by intros ->. Qed.

Lemma post_mono {A} (c : M W A) w (Q Q' : result A → W → Prop) :
  post c w Q → (∀ v w', Q v w' → Q' v w') → post c w Q'.
Proof. unfold post. auto. Qed.

End Post.

(** Tactics for running the manager on the reference collaborators: unfold
    the operations, settle the lookups in the map of files, follow the
    structure of the computation. *)
Ltac ref_ops :=
  cbn [fs_Stat fs_MkdirAll fs_Rename fs_Remove fs_SymlinkIfPossible
       fs_ReadlinkIfPossible lcc_run ecc_run json_Unmarshal_Disk
       json_Unmarshal_qemuDiskInfo Ref.collaborators];
  unfold Ref.Stat, Ref.MkdirAll, Ref.Rename, Ref.Remove, Ref.SymlinkIfPossible,
    Ref.ReadlinkIfPossible, Ref.with_files.

Ltac map_step :=
  match goal with
  | |- context [<[?a:=_]> _ !! ?a] => rewrite lookup_insert_eq
  | |- context [delete ?a _ !! ?a] => rewrite lookup_delete_eq
  | H : ?a ≠ ?b |- context [<[?a:=_]> _ !! ?b] =>
      rewrite (lookup_insert_ne _ a b) by exact H
  | H : ?b ≠ ?a |- context [<[?a:=_]> _ !! ?b] =>
      rewrite (lookup_insert_ne _ a b) by (intros ?; by apply H)
  | H : ?a ≠ ?b |- context [delete ?a _ !! ?b] =>
      rewrite (lookup_delete_ne _ a b) by exact H
  | H : ?b ≠ ?a |- context [delete ?a _ !! ?b] =>
      rewrite (lookup_delete_ne _ a b) by (intros ?; by apply H)
  | |- context [<[?a:=_]> _ !! ?b] => destruct (decide (a = b)) as [->|]
  | |- context [delete ?a _ !! ?b] => destruct (decide (a = b)) as [->|]
  | H : ?m !! ?p = _ |- context [?m !! ?p] => rewrite H
  end.

Ltac wp_step :=
  first
    [ progress ref_ops
    | progress cbn [fst snd val st Ref.files Ref.disks is_nil negb Format
                    errors_Is_ErrNotExist]
    | map_step
    | match goal with
      | |- context [match Ref.files ?w !! ?p with _ => _ end] =>
          let E := fresh "E" in destruct (Ref.files w !! p) as [?|] eqn:E
      | |- context [match ?n with Ref.File _ => _ | _ => _ end] => destruct n
      | |- context [String.eqb ?a ?b] => destruct (String.eqb_spec a b)
      | |- context [bool_decide ?P] => destruct (bool_decide_reflect P)
      end
    | match goal with
      | |- post (bind _ _) _ _ => apply post_bind
      | |- post (call _ _) _ _ => apply post_call
      | |- post (ret _) _ _ => apply post_ret
      | |- post (fail _) _ _ => apply post_fail
      | |- post (match ?x with _ => _ end) _ _ => destruct x eqn:?
      | |- post (if ?b then _ else _) _ _ => destruct b eqn:?
      end ].

(** Use the postcondition [H] of the computation at hand. *)
Ltac wp_use H :=
  eapply post_mono; [apply H | cbv beta; intros ? ? ?; destruct_and?].

Ltac wp_done :=
  repeat split; intros; simplify_eq; repeat map_step; try done; try congruence.

(** ** The manager on the reference collaborators *)
Section OnRef.
Variable m : userDataDiskManager.

Local Abbreviation C := (Ref.collaborators (finch_LimaHomePath m)).
Local Abbreviation disk := (diskPathOf m).
Local Abbreviation lima := (limaPathOf m).
Local Abbreviation lock := (lockPathOf m).
Local Abbreviation dir := (path.Dir (diskPathOf m)).
Local Abbreviation qcow := (qcowPathOf (diskPathOf m)).
Local Abbreviation vz := (String.eqb (config_VMType m) "vz").
Local Abbreviation attach := (@attachPersistentDiskToLimaDisk _ C m).

Lemma ref_limaDiskExists w :
  @limaDiskExists _ C w
  = mkRes (Ok (bool_decide (diskName ∈ Ref.disks w))) w [EvLima lsArgs].
Proof.
  unfold limaDiskExists. rewrite bind_call. cbn.
  case_bool_decide; reflexivity.
Qed.

Lemma ref_getDiskInfo w :
  @getDiskInfo _ C m disk w
  = mkRes match Ref.files w !! disk with
          | Some (Ref.File format) =>
              if String.eqb format ""
              then Err (ErrorfW "failed to unmarshal disk info JSON for disk at %q: %w"
                                [disk] (ErrOther "unexpected end of JSON input"))
              else Ok {| VirtualSize := 0; Filename := ""; Format := format;
                         ActualSize := 0; DirtyFlag := false |}
          | _ => Err (ErrorfW "failed to get disk info for disk at %q: %w"
                              [disk] Ref.exitStatus)
          end
          w [EvExec (qemuImg m) (infoArgs disk)].
Proof.
  unfold getDiskInfo. rewrite bind_call. cbn.
  destruct (Ref.files w !! disk) as [[format| |]|]; cbn; try reflexivity.
  unfold Ref.Unmarshal_qemuDiskInfo. by destruct (String.eqb format "").
Qed.

(** The registry and the image tool at the calls of the manager. *)
Lemma ref_create w :
  Ref.limactl (finch_LimaHomePath m) createArgs w
  = if bool_decide (diskName ∈ Ref.disks w)
    then (("disk already exists", Some Ref.exitStatus), w)
    else (("", None),
          Ref.mkWorld (<[lima := Ref.File "raw"]> (Ref.files w))
                      ({[diskName]} ∪ Ref.disks w)).
Proof. reflexivity. Qed.

Lemma ref_unlock w :
  Ref.limactl (finch_LimaHomePath m) unlockArgs w
  = match Ref.files w !! lock with
    | Some Ref.Dir => (("cannot remove the lock", Some Ref.exitStatus), w)
    | _ => (("", None), Ref.mkWorld (delete lock (Ref.files w)) (Ref.disks w))
    end.
Proof. reflexivity. Qed.

Lemma ref_convert w :
  Ref.qemu_img (convertArgs qcow disk) w
  = match Ref.files w !! qcow with
    | Some (Ref.File format) =>
        if String.eqb format "qcow2"
        then (("", None),
              Ref.mkWorld (<[disk := Ref.File "raw"]> (Ref.files w)) (Ref.disks w))
        else (("image is not in the given format", Some Ref.exitStatus), w)
    | _ => (("could not open the image", Some Ref.exitStatus), w)
    end.
Proof. reflexivity. Qed.

Lemma ref_ls_state w : (Ref.limactl (finch_LimaHomePath m) lsArgs w).2 = w.
Proof. cbn. by destruct (bool_decide _). Qed.

Lemma ref_info_state p w : (Ref.qemu_img (infoArgs p) w).2 = w.
Proof. cbn. by destruct (Ref.files w !! p) as [[]|]. Qed.

(** Link repair on the reference collaborators. *)
Lemma ref_attach_post w :
  post attach w (λ v w',
    Ref.disks w' = Ref.disks w
    ∧ (Ref.files w !! disk ≠ None →
       ∀ p, p ≠ lima → Ref.files w' !! p = Ref.files w !! p)
    ∧ (v = Ok tt → Ref.files w' !! lima = Some (Ref.Symlink disk))
    ∧ (v = Ok tt → lima ≠ disk → Ref.files w !! disk = None →
       ∀ n, Ref.files w !! lima = Some n → Ref.files w' !! disk = Some n)).
Proof.
  unfold attachPersistentDiskToLimaDisk, persistentDiskExists.
  set (d := dir). set (dk := disk). set (lm := lima). clearbody d dk lm.
  repeat wp_step; wp_done.
Qed.

Lemma ref_clearLock_post w :
  post (@clearLock _ C m) w (λ v w',
    Ref.disks w' = Ref.disks w
    ∧ (∀ p, p ≠ lock → Ref.files w' !! p = Ref.files w !! p)
    ∧ (v = Ok tt → Ref.files w' !! lock = None)).
Proof.
  unfold clearLock, limaDiskIsLocked, unlockLimaDisk.
  repeat first [ rewrite ref_unlock | wp_step ]; wp_done.
Qed.

Lemma ref_convertToRaw_post w :
  post (@convertToRaw _ C m disk) w (λ v w',
    Ref.disks w' = Ref.disks w
    ∧ (∀ p, p ≠ disk → p ≠ qcow → Ref.files w' !! p = Ref.files w !! p)
    ∧ (v = Ok tt →
       Ref.files w !! disk = Some (Ref.File "qcow2")
       ∧ Ref.files w' !! disk = Some (Ref.File "raw")
       ∧ Ref.files w' !! qcow = Some (Ref.File "qcow2"))).
Proof.
  pose proof (qcowPath_ne disk) as Hq.
  unfold convertToRaw. cbv zeta.
  repeat first [ rewrite ref_convert | wp_step ]; wp_done.
Qed.

Lemma ref_createLimaDisk_post w :
  post (@createLimaDisk _ C) w (λ v w',
    (∀ p, p ≠ lima → Ref.files w' !! p = Ref.files w !! p)
    ∧ (v = Ok tt →
       Ref.files w' !! lima = Some (Ref.File "raw")
       ∧ diskName ∈ Ref.disks w')).
Proof.
  unfold createLimaDisk.
  repeat first [ rewrite ref_create | wp_step ]; wp_done.
  set_solver.
Qed.

Lemma ref_verifyLink_linked w :
  Ref.files w !! lima = Some (Ref.Symlink disk) →
  @verifyLink _ C m w = mkRes (Ok tt) w [EvReadlink lima].
Proof.
  intros Hl. rewrite verifyLink_unfold. ref_ops. rewrite Hl. cbn.
  by rewrite String.eqb_refl.
Qed.

Lemma ref_clearLock_free w :
  Ref.files w !! lock = None →
  @clearLock _ C m w = mkRes (Ok tt) w [EvStat lock].
Proof.
  intros Hl. unfold clearLock, limaDiskIsLocked. repeat mstep.
  ref_ops. rewrite Hl. by repeat mstep.
Qed.

Lemma ref_normalize_raw w :
  (vz = true → Ref.files w !! disk = Some (Ref.File "raw")) →
  @normalizeFormat _ C m w
  = mkRes (Ok tt) w (if vz then [EvExec (qemuImg m) (infoArgs disk)] else []).
Proof.
  intros Hraw. rewrite normalizeFormat_unfold.
  destruct vz; [|reflexivity].
  rewrite bind_unfold, ref_getDiskInfo, Hraw by done. reflexivity.
Qed.

Lemma ref_normalizeFormat_post w :
  post (@normalizeFormat _ C m) w (λ v w',
    Ref.disks w' = Ref.disks w
    ∧ (v = Ok tt → vz = true → disk ≠ lima →
       Ref.files w' !! disk = Some (Ref.File "raw"))).
Proof.
  pose proof (qcowPath_ne disk) as Hq.
  pose proof (limaPath_ne_qcowPath m disk) as Hlq.
  unfold normalizeFormat.
  destruct (String.eqb_spec (config_VMType m) "vz") as [Hvz|Hvz];
    [|by apply post_ret].
  apply post_bind. eapply post_run; [apply ref_getDiskInfo|].
  repeat wp_step; try wp_done.
  eapply post_mono; [apply ref_convertToRaw_post|].
  intros [[]|e'] w1 (Hd1 & _ & Hconv); [|wp_done].
  destruct Hconv as (_ & Hraw & _); [done|].
  eapply post_mono; [apply ref_attach_post|].
  intros v w2 (Hd2 & Hkeep & _). split; [congruence|].
  intros _ _ Hne. rewrite Hkeep; [done | congruence | done].
Qed.

(** A run from a state the manager has nothing to do in: queries only, no
    error, and the state is left as it is. *)
Lemma ref_ensure_converged w :
  diskName ∈ Ref.disks w →
  Ref.files w !! lima = Some (Ref.Symlink disk) →
  Ref.files w !! lock = None →
  (vz = true → Ref.files w !! disk = Some (Ref.File "raw")) →
  Ref.ensure m w
  = mkRes (Ok tt) w
      (EvLima lsArgs
       :: (if vz then [EvExec (qemuImg m) (infoArgs disk)] else [])
       ++ [EvReadlink lima; EvStat lock]).
Proof.
  intros Hreg Hlink Hfree Hraw.
  unfold Ref.ensure. rewrite EnsureUserDataDisk_phases. unfold reconcile.
  rewrite bind_assoc, bind_unfold, ref_limaDiskExists. cbn [val st tr].
  rewrite bool_decide_eq_true_2 by done.
  rewrite bind_assoc, bind_unfold, (ref_normalize_raw _ Hraw). cbn [val st tr].
  rewrite bind_unfold, (ref_verifyLink_linked _ Hlink). cbn [val st tr].
  rewrite (ref_clearLock_free _ Hfree). unfold after_calls. cbn [val st tr].
  by destruct vz.
Qed.

Global Instance same_at_preorder p : PreOrder (same_at p).
Proof.
  split; [by intros w | intros w1 w2 w3 H12 H23].
  unfold same_at in *. congruence.
Qed.

(** Before lock clearance nothing is done to a path that is not the slot,
    the persistent path, its [.qcow2] sibling or its directory. *)
Lemma ref_reconcile_keeps p :
  p ≠ lima → p ≠ disk → p ≠ qcow → p ≠ dir →
  keeps (same_at p) (@reconcile _ C m).
Proof.
  intros Hl Hd Hq Hdir.
  unfold reconcile, normalizeFormat, verifyLink, createAndAttach, limaDiskExists,
    getDiskInfo, convertToRaw, createLimaDisk, attachPersistentDiskToLimaDisk,
    persistentDiskExists.
  repeat (first [ keeps_step | apply keeps_call; intros w' ]);
    unfold same_at; ref_ops;
    rewrite ?ref_create, ?ref_convert, ?ref_ls_state, ?ref_info_state;
    try reflexivity;
    repeat first
      [ map_step
      | match goal with
        | |- context [match Ref.files ?w !! ?x with _ => _ end] =>
            destruct (Ref.files w !! x) as [[]|]
        | |- context [bool_decide ?P] => destruct (bool_decide P)
        | |- context [String.eqb ?a ?b] => destruct (String.eqb a b)
        end
      | progress cbn [fst snd Ref.files] ];
    done.
Qed.

(** After a conversion that succeeded, link repair, link verification and
    lock clearance leave every path but the slot and the lock marker as it
    is. *)
Lemma ref_after_conversion_keeps w :
  Ref.files w !! disk ≠ None →
  let w' := st (bind attach
                  (λ _, bind (@verifyLink _ C m) (λ _, @clearLock _ C m)) w) in
  Ref.disks w' = Ref.disks w
  ∧ ∀ p, p ≠ lima → p ≠ lock → Ref.files w' !! p = Ref.files w !! p.
Proof.
  intros Hdisk.
  change (post (bind attach (λ _, bind (@verifyLink _ C m) (λ _, @clearLock _ C m))) w
            (λ _ w', Ref.disks w' = Ref.disks w
                     ∧ ∀ p, p ≠ lima → p ≠ lock →
                            Ref.files w' !! p = Ref.files w !! p)).
  apply post_bind. eapply post_mono; [apply ref_attach_post|].
  intros [[]|e] w1 (Hd1 & Hkeep & Hlink & _); [|by auto].
  apply post_bind.
  eapply post_run; [apply ref_verifyLink_linked; by apply Hlink|]. cbn [val st].
  eapply post_mono; [apply ref_clearLock_post|].
  intros v w2 (Hd2 & Hkeep2 & _). split; [congruence|].
  intros p Hl Hk. rewrite Hkeep2 by done. by apply Hkeep.
Qed.

Lemma ref_conversion_succeeded w :
  @conversion_succeeded _ C m w →
  diskName ∈ Ref.disks w ∧ vz = true
  ∧ Ref.files w !! disk = Some (Ref.File "qcow2").
Proof.
  pose proof (qcowPath_ne disk) as Hq.
  unfold conversion_succeeded, conversion_reached.
  rewrite ref_limaDiskExists. cbn [val st]. rewrite ref_getDiskInfo. cbn [val st].
  intros ((Hreg & Hvz & info & Hi & Hfmt & Hmv) & Hcv).
  split; [by destruct (bool_decide_reflect (diskName ∈ Ref.disks w))|].
  split; [done|].
  revert Hcv. ref_ops. rewrite ref_convert.
  destruct (Ref.files w !! disk) as [[format| |]|]; try done.
  cbn [fst snd Ref.files]. rewrite lookup_insert_eq.
  destruct (String.eqb_spec format "qcow2") as [->|]; done.
Qed.

Lemma ref_converted_state w :
  Ref.files w !! disk = Some (Ref.File "qcow2") →
  (@ecc_run _ C (qemuImg m) (convertArgs qcow disk)
     (@fs_Rename _ C disk qcow w).2).2
  = Ref.mkWorld (<[disk := Ref.File "raw"]>
                   (<[qcow := Ref.File "qcow2"]> (delete disk (Ref.files w))))
                (Ref.disks w).
Proof.
  intros Hdisk. ref_ops. rewrite Hdisk. cbn [fst snd].
  rewrite ref_convert. cbn [Ref.files Ref.disks].
  rewrite lookup_insert_eq. reflexivity.
Qed.

Lemma ref_conversion_keeps_image w :
  @conversion_succeeded _ C m w →
  let w' := st (Ref.ensure m w) in
  Ref.files w !! disk = Some (Ref.File "qcow2")
  ∧ Ref.files w' !! qcow = Ref.files w !! disk
  ∧ diskName ∈ Ref.disks w'
  ∧ (disk ≠ lima → disk ≠ lock → Ref.files w' !! disk = Some (Ref.File "raw")).
Proof.
  intros Hconv.
  pose proof (qcowPath_ne disk) as Hq.
  pose proof (limaPath_ne_qcowPath m disk) as Hlq.
  pose proof (lockPath_ne_qcowPath m disk) as Hkq.
  destruct (ref_conversion_succeeded w Hconv) as (Hreg & Hvz & Hdisk).
  cbv zeta. split; [exact Hdisk|].
  destruct Hconv as ((Hq0 & _ & info & Hi & Hfmt & Hmv) & Hcv).
  pose proof (normalization_converts m w info Hq0 Hvz Hi Hfmt) as Hrun.
  cbv zeta in Hrun.
  assert (Hst : st (@getDiskInfo _ C m disk (st (@limaDiskExists _ C w))) = w).
  { by rewrite ref_limaDiskExists, ref_getDiskInfo. }
  rewrite Hst in Hmv, Hcv, Hrun.
  change (disk ++ ".qcow2")%string with qcow in Hrun.
  change ["convert"; "-f"; "qcow2"; "-O"; "raw"; qcow; disk]
    with (convertArgs qcow disk) in Hrun.
  rewrite Hmv, Hcv, (ref_converted_state w Hdisk) in Hrun.
  unfold Ref.ensure. rewrite Hrun, st_after_calls.
  match goal with
  | |- context [st (bind attach ?k ?w2)] =>
      destruct (ref_after_conversion_keeps w2) as (Hd & Hkeep)
  end.
  { cbn [Ref.files]. by rewrite lookup_insert_eq. }
  split; [|split].
  - rewrite Hkeep by done. cbn [Ref.files].
    rewrite lookup_insert_ne by done. by rewrite lookup_insert_eq.
  - by rewrite Hd.
  - intros Hl Hk. rewrite Hkeep by done. cbn [Ref.files].
    by rewrite lookup_insert_eq.
Qed.

Lemma ref_verifyLink_keeps w :
  post (@verifyLink _ C m) w (λ v w',
    Ref.disks w' = Ref.disks w
    ∧ (Ref.files w !! disk ≠ None →
       ∀ p, p ≠ lima → Ref.files w' !! p = Ref.files w !! p)).
Proof.
  unfold verifyLink.
  repeat wp_step; try (wp_use ref_attach_post); wp_done; auto.
Qed.

(** Once the registry has the disk and the persistent file is raw, a run
    changes nothing but the slot and the lock marker. *)
Lemma ref_ensure_settled_keeps w :
  diskName ∈ Ref.disks w →
  Ref.files w !! disk = Some (Ref.File "raw") →
  Ref.disks (st (Ref.ensure m w)) = Ref.disks w
  ∧ ∀ p, p ≠ lima → p ≠ lock →
         Ref.files (st (Ref.ensure m w)) !! p = Ref.files w !! p.
Proof.
  intros Hreg Hraw.
  unfold Ref.ensure. rewrite EnsureUserDataDisk_phases.
  change (post (bind (@reconcile _ C m) (λ _, @clearLock _ C m)) w
            (λ _ w', Ref.disks w' = Ref.disks w
                     ∧ ∀ p, p ≠ lima → p ≠ lock →
                            Ref.files w' !! p = Ref.files w !! p)).
  apply post_bind. unfold reconcile. apply post_bind.
  eapply post_run; [apply ref_limaDiskExists|]. cbn [val st].
  rewrite bool_decide_eq_true_2 by done.
  apply post_bind.
  eapply post_run; [apply ref_normalize_raw; by intros _|]. cbn [val st].
  eapply post_mono; [apply ref_verifyLink_keeps|].
  intros v w1 (Hd1 & Hkeep1).
  assert (Hk : ∀ p, p ≠ lima → Ref.files w1 !! p = Ref.files w !! p).
  { apply Hkeep1. by rewrite Hraw. }
  destruct v as [[]|e]; [|by auto].
  eapply post_mono; [apply ref_clearLock_post|].
  intros v w2 (Hd2 & Hkeep2 & _). split; [congruence|].
  intros p Hl Hk'. rewrite Hkeep2 by done. by apply Hk.
Qed.

(** The persistent path is a path: it is not the empty string. *)
Hypothesis disk_nonempty : disk ≠ "".

Lemma ref_verifyLink_post w :
  post (@verifyLink _ C m) w (λ v w',
    Ref.disks w' = Ref.disks w
    ∧ (Ref.files w !! disk ≠ None →
       ∀ p, p ≠ lima → Ref.files w' !! p = Ref.files w !! p)
    ∧ (v = Ok tt → Ref.files w' !! lima = Some (Ref.Symlink disk))).
Proof.
  unfold verifyLink.
  repeat wp_step; try (wp_use ref_attach_post); wp_done; auto.
Qed.

Lemma ref_reconcile_post w :
  post (@reconcile _ C m) w (λ v w',
    v = Ok tt →
    diskName ∈ Ref.disks w'
    ∧ Ref.files w' !! lima = Some (Ref.Symlink disk)
    ∧ (vz = true → disk ≠ lima →
       diskName ∈ Ref.disks w ∨ Ref.files w !! disk = None →
       Ref.files w' !! disk = Some (Ref.File "raw"))).
Proof.
  unfold reconcile. apply post_bind.
  eapply post_run; [apply ref_limaDiskExists|]. cbn [val st].
  destruct (bool_decide_reflect (diskName ∈ Ref.disks w)) as [Hreg|Hreg].
  - apply post_bind. eapply post_mono; [apply ref_normalizeFormat_post|].
    intros [[]|e] w1 (Hd1 & Hraw); [|done].
    eapply post_mono; [apply ref_verifyLink_post|].
    intros v w2 (Hd2 & Hkeep & Hlink) Hok.
    split; [by rewrite Hd2, Hd1|]. split; [by apply Hlink|].
    intros Hvz Hne _. specialize (Hraw eq_refl Hvz Hne).
    rewrite Hkeep; [done | by rewrite Hraw | done].
  - unfold createAndAttach. apply post_bind.
    eapply post_mono; [apply ref_createLimaDisk_post|].
    intros [[]|e] w1 (Hframe & Hcreated); [|done].
    destruct Hcreated as (Hslot & Hreg1); [done|].
    eapply post_mono; [apply ref_attach_post|].
    intros v w2 (Hd2 & Hkeep & Hlink & Hmoved) Hok.
    split; [by rewrite Hd2|]. split; [by apply Hlink|].
    intros Hvz Hne [Hr|Habs]; [done|].
    apply Hmoved; [done | congruence | | done].
    by rewrite Hframe.
Qed.

(** What a run without error leaves: the registry has the disk, the slot is
    a symlink to the persistent path, there is no lock marker, and, for a
    [vz] backend, the persistent file is raw when the registry had the disk
    at the start or there was no persistent file then. *)
Lemma ref_ensure_post w :
  val (Ref.ensure m w) = Ok tt →
  let w' := st (Ref.ensure m w) in
  diskName ∈ Ref.disks w'
  ∧ Ref.files w' !! lima = Some (Ref.Symlink disk)
  ∧ Ref.files w' !! lock = None
  ∧ (vz = true → disk ≠ lima → disk ≠ lock →
     diskName ∈ Ref.disks w ∨ Ref.files w !! disk = None →
     Ref.files w' !! disk = Some (Ref.File "raw")).
Proof.
  pose proof (lockPath_ne_limaPath m) as Hll.
  unfold Ref.ensure. rewrite EnsureUserDataDisk_phases.
  change (post (bind (@reconcile _ C m) (λ _, @clearLock _ C m)) w
            (λ v w', v = Ok tt →
               diskName ∈ Ref.disks w'
               ∧ Ref.files w' !! lima = Some (Ref.Symlink disk)
               ∧ Ref.files w' !! lock = None
               ∧ (vz = true → disk ≠ lima → disk ≠ lock →
                  diskName ∈ Ref.disks w ∨ Ref.files w !! disk = None →
                  Ref.files w' !! disk = Some (Ref.File "raw")))).
  apply post_bind. eapply post_mono; [apply ref_reconcile_post|].
  intros [[]|e] w1 Hrec; [|done].
  destruct Hrec as (Hreg & Hlink & Hraw); [done|].
  eapply post_mono; [apply ref_clearLock_post|].
  intros v w2 (Hd2 & Hkeep & Hfree) Hok.
  split; [by rewrite Hd2|]. split; [by rewrite Hkeep|].
  split; [by apply Hfree|].
  intros Hvz Hne Hnl Hstart. rewrite Hkeep by done. by apply Hraw.
Qed.

End OnRef.

(** Runs that follow a settled state, whatever VM type each is configured
    with, change nothing but the slot and the lock marker. *)
Lemma runs_settled_keep m vmTypes w :
  diskName ∈ Ref.disks w →
  Ref.files w !! diskPathOf m = Some (Ref.File "raw") →
  diskPathOf m ≠ limaPathOf m → diskPathOf m ≠ lockPathOf m →
  ∀ p, p ≠ limaPathOf m → p ≠ lockPathOf m →
       Ref.files (runs m vmTypes w) !! p = Ref.files w !! p.
Proof.
  intros Hreg Hraw Hl Hk. revert w Hreg Hraw.
  induction vmTypes as [|vmType rest IH]; intros w Hreg Hraw p Hpl Hpk;
    [reflexivity|].
  destruct (ref_ensure_settled_keeps (with_VMType m vmType) w Hreg Hraw)
    as (Hd & Hkeep).
  change (diskPathOf (with_VMType m vmType)) with (diskPathOf m) in *.
  change (limaPathOf (with_VMType m vmType)) with (limaPathOf m) in *.
  change (lockPathOf (with_VMType m vmType)) with (lockPathOf m) in *.
  simpl. rewrite IH.
  - by apply Hkeep.
  - by rewrite Hd.
  - by rewrite Hkeep.
  - done.
  - done.
Qed.

(** * The specification, claim by claim *)

(** ** Two runs of the spec, on the reference collaborators *)

(** No registry disk, nothing on the host, a backend that requires raw: one
    registry create, one move of the slot's file, one symlink, no unlock,
    no conversion. *)
Example fresh_install_run :
  Ref.ensure (Ref.mgr "vz") w_fresh
  = mkRes (Ok tt)
      (Ref.mkWorld (<[slot := Ref.Symlink pdisk]>
                      (<[pdisk := Ref.File "raw"]>
                         {[ "/Users/u/.finch/.disks" := Ref.Dir ]}))
                   {[ "finch" ]})
      [EvLima lsArgs; EvLima createArgs; EvStat pdisk; EvStat "/Users/u/.finch/.disks";
       EvMkdirAll "/Users/u/.finch/.disks" 493; EvRename slot pdisk; EvStat slot;
       EvSymlink pdisk slot; EvStat marker].
Proof. vm_compute. reflexivity. Qed.

(** A registry disk in qcow2, linked, with a lock marker: one move, one
    conversion, one new symlink, one unlock. *)
Example qcow2_locked_run :
  let r := Ref.ensure (Ref.mgr "vz") w_qcow2_locked in
  val r = Ok tt
  ∧ count_calls is_convert (tr r) = 1
  ∧ count_calls is_unlock (tr r) = 1
  ∧ Ref.files (st r) !! pdisk = Some (Ref.File "raw")
  ∧ Ref.files (st r) !! slot = Some (Ref.Symlink pdisk)
  ∧ Ref.files (st r) !! marker = None.
Proof. vm_compute. repeat split. Qed.

(** ** C1 *)

(** C1 at a reinstall: with no registry disk, a [vz] backend and the qcow2
    persistent file of an earlier install, the run takes the creation
    branch, links the file as it is and returns without error, and the
    file is still qcow2: the state C1 promises after a run without error is
    not reached.  The branch for a registry disk that exists converts such
    a file (source lines 81 to 99; the comment of lines 87 to 89 says why
    the file has to be raw before the VM starts); the creation branch
    (lines 115 to 122) has no such step. *)
Lemma ensure_keeps_qcow2_after_create :
  val (Ref.ensure (Ref.mgr "vz") w_reinstalled) = Ok tt
  ∧ Ref.files (st (Ref.ensure (Ref.mgr "vz") w_reinstalled)) !! pdisk
    = Some (Ref.File "qcow2")
  ∧ ¬ converged (Ref.mgr "vz") (st (Ref.ensure (Ref.mgr "vz") w_reinstalled)).
Proof.
  split; [by vm_compute|]. split; [by vm_compute|].
  intros (_ & Hraw & _). specialize (Hraw eq_refl).
  vm_compute in Hraw. discriminate.
Qed.

(** ** C2 *)

(** C2 at a reinstall: from the same start as for C1 the first run returns
    without error, and the second run, on the state the first one left,
    is no run of queries only: it finds the qcow2 file that the creation
    branch left unconverted, moves it to its sibling path, converts it and
    repairs the link (a move, a conversion, a removal and a symlink). *)
Lemma second_run_converts :
  val (Ref.ensure (Ref.mgr "vz") w_reinstalled) = Ok tt
  ∧ tr (Ref.ensure (Ref.mgr "vz") (st (Ref.ensure (Ref.mgr "vz") w_reinstalled)))
    = [EvLima lsArgs;
       EvExec qemu_img_bin ["info"; "--output=json"; pdisk];
       EvRename pdisk (pdisk ++ ".qcow2")%string;
       EvExec qemu_img_bin
         ["convert"; "-f"; "qcow2"; "-O"; "raw"; (pdisk ++ ".qcow2")%string; pdisk];
       EvStat pdisk; EvStat slot; EvRemove slot; EvSymlink pdisk slot;
       EvReadlink slot; EvStat marker]
  ∧ ¬ second_run_is_noop (Ref.mgr "vz") w_reinstalled.
Proof.
  split; [by vm_compute|]. split; [by vm_compute|].
  intros (_ & _ & Hq). rewrite Forall_forall in Hq.
  specialize (Hq (EvRename pdisk (pdisk ++ ".qcow2")%string)).
  assert (Hin : EvRename pdisk (pdisk ++ ".qcow2")%string
                ∈ tr (Ref.ensure (Ref.mgr "vz")
                        (st (Ref.ensure (Ref.mgr "vz") w_reinstalled)))).
  { vm_compute. in_list. }
  specialize (Hq Hin). discriminate.
Qed.

(** ** C3, C6, C7 and C8 at example hosts *)

Lemma link_verification_repairs_witness :
  tr (Ref.ensure (Ref.mgr "qemu") w_unlinked)
  = [EvLima lsArgs; EvReadlink slot; EvStat pdisk; EvStat slot; EvRemove slot;
     EvSymlink pdisk slot; EvStat marker]
  ∧ val (Ref.ensure (Ref.mgr "qemu") w_unlinked) = Ok tt.
Proof.
  destruct (@link_verification_repairs _ (Ref.collaborators home_lima)
              (Ref.mgr "qemu") w_unlinked) as (_ & _ & Hempty & _).
  - vm_compute. reflexivity.
  - vm_compute. reflexivity.
  - unfold Ref.ensure. change (finch_LimaHomePath (Ref.mgr "qemu")) with home_lima.
    rewrite Hempty.
    + split; vm_compute; reflexivity.
    + vm_compute. reflexivity.
    + vm_compute. reflexivity.
    + vm_compute. discriminate.
Defined.

(** C3 as stated fails: the registry has the disk and the slot holds a
    regular file, no symlink to the persistent path, and the run makes no
    link repair and fails.  Under [vz] with no persistent file the
    inspection fails and the run ends there, before the link is read; and
    where the reading of the link fails, the run ends with that error. *)
Lemma registry_disk_without_link_repair :
  (* the inspection fails *)
  (val (@limaDiskExists _ (Ref.collaborators home_lima) w_in_slot) = Ok true
   ∧ Ref.files w_in_slot !! slot = Some (Ref.File "raw")
   ∧ Ref.ensure (Ref.mgr "vz") w_in_slot
     = mkRes (Err (ErrorfW "failed to get disk info for disk at %q: %w" [pdisk]
                           Ref.exitStatus))
             w_in_slot
             [EvLima lsArgs; EvExec qemu_img_bin ["info"; "--output=json"; pdisk]])
  (* the reading of the link fails *)
  ∧ (let C := with_failing_readlink (Ref.collaborators home_lima)
                (ErrOther "permission denied") in
     val (@limaDiskExists _ C w_in_slot) = Ok true
     ∧ @EnsureUserDataDisk _ C (Ref.mgr "qemu") w_in_slot
       = mkRes (Err (ErrOther "permission denied")) w_in_slot
               [EvLima lsArgs; EvReadlink slot]).
Proof. repeat split; vm_compute; reflexivity. Qed.

Lemma limaDiskExists_fails_open_witness :
  ∃ rest, tr (Ref.ensure (Ref.mgr "vz") w_fresh)
          = EvLima lsArgs :: EvLima createArgs :: rest.
Proof.
  destruct (@limaDiskExists_fails_open _ (Ref.collaborators home_lima)
              (Ref.mgr "vz") w_fresh) as (_ & _ & Hrest).
  - right. left. vm_compute. by eexists.
  - exact Hrest.
Defined.

Lemma link_repair_moves_iff_absent_witness :
  ∃ rest,
    tr (@attachPersistentDiskToLimaDisk _ (Ref.collaborators home_lima)
          (Ref.mgr "vz") w_unlinked)
    = EvStat pdisk :: EvStat slot :: [EvRemove slot] ++ rest.
Proof.
  destruct (@link_repair_moves_iff_absent _ (Ref.collaborators home_lima)
              (Ref.mgr "vz") w_unlinked) as (_ & _ & _ & Hpresent & _).
  apply Hpresent. vm_compute. reflexivity.
Defined.

Lemma clearLock_when_locked_witness :
  count_calls is_unlock (tr (Ref.ensure (Ref.mgr "vz") w_qcow2_locked)) = 1
  ∧ val (Ref.ensure (Ref.mgr "vz") w_qcow2_locked) = Ok tt.
Proof.
  destruct (@clearLock_when_locked _ (Ref.collaborators home_lima)
              (Ref.mgr "vz") w_qcow2_locked) as (_ & Hcount & Hval).
  - vm_compute. reflexivity.
  - split; [exact Hcount | exact Hval].
Defined.

(** ** C4 *)

(** C4, as amended: when the registry has the disk, the backend is [vz] and
    the inspection reports a format other than raw, whichever it is, the run
    moves the persistent file to the sibling path with the [.qcow2]
    extension, then runs the image tool's convert with source format qcow2
    from that path to the persistent path, then runs link repair (and link
    verification and lock clearance); a failing move or conversion ends
    the run with that error. *)
Theorem normalization_moves_to_qcow2_and_converts
    {W : Type} `{Collaborators W} (m : userDataDiskManager) (w : W) info :
  let disk := diskPathOf m in
  let q := limaDiskExists w in
  let i := getDiskInfo m disk (st q) in
  let mv := fs_Rename disk (disk ++ ".qcow2")%string (st i) in
  let cmd := EvExec (qemuImg m)
               ["convert"; "-f"; "qcow2"; "-O"; "raw";
                (disk ++ ".qcow2")%string; disk] in
  let cv := ecc_run (qemuImg m)
              ["convert"; "-f"; "qcow2"; "-O"; "raw";
               (disk ++ ".qcow2")%string; disk] mv.2 in
  val q = Ok true → config_VMType m = "vz" → val i = Ok info →
  Format info ≠ "raw" →
  EnsureUserDataDisk m w =
  match mv.1 with
  | Some err =>
      mkRes (Err (ErrorfW "faied to rename disk: %w" [] err)) mv.2
            (tr q ++ tr i ++ [EvRename disk (disk ++ ".qcow2")%string])
  | None =>
      match cv.1.2 with
      | Some err =>
          mkRes (Err (ErrorfW "failed to convert disk %q from qcow2 to raw: %w"
                              [disk] err))
                cv.2
                (tr q ++ tr i ++ [EvRename disk (disk ++ ".qcow2")%string; cmd])
      | None =>
          after_calls
            (tr q ++ tr i ++ [EvRename disk (disk ++ ".qcow2")%string; cmd])
            (bind (attachPersistentDiskToLimaDisk m)
                  (λ _, bind (verifyLink m) (λ _, clearLock m)) cv.2)
      end
  end.
Proof.
  intros disk q i mv cmd cv Hq Hvz Hi Hfmt.
  apply (normalization_converts m w info); try done.
  by apply String.eqb_eq.
Qed.

Lemma normalization_moves_to_qcow2_and_converts_witness :
  tr (Ref.ensure (Ref.mgr "vz") w_qcow2_locked)
  = [EvLima lsArgs;
     EvExec qemu_img_bin ["info"; "--output=json"; pdisk];
     EvRename pdisk (pdisk ++ ".qcow2")%string;
     EvExec qemu_img_bin
       ["convert"; "-f"; "qcow2"; "-O"; "raw"; (pdisk ++ ".qcow2")%string; pdisk];
     EvStat pdisk; EvStat slot; EvRemove slot; EvSymlink pdisk slot;
     EvReadlink slot; EvStat marker; EvLima unlockArgs].
Proof.
  pose proof (@normalization_moves_to_qcow2_and_converts _
                (Ref.collaborators home_lima) (Ref.mgr "vz") w_qcow2_locked
                {| VirtualSize := 0; Filename := ""; Format := "qcow2";
                   ActualSize := 0; DirtyFlag := false |}) as Hrun.
  cbv zeta in Hrun. unfold Ref.ensure.
  change (finch_LimaHomePath (Ref.mgr "vz")) with home_lima.
  rewrite Hrun.
  - vm_compute. reflexivity.
  - vm_compute. reflexivity.
  - reflexivity.
  - vm_compute. reflexivity.
  - vm_compute. discriminate.
Defined.

(** C4 as stated fails: the inspection reports the vmdk format, and the
    run moves the file to the [.qcow2] sibling, not the [.vmdk] one, and
    tells the image tool that the source is qcow2, not vmdk. *)
Lemma vmdk_is_moved_to_qcow2 :
  let t := tr (Ref.ensure (Ref.mgr "vz") w_vmdk) in
  Ref.files w_vmdk !! pdisk = Some (Ref.File "vmdk")
  ∧ (EvRename pdisk (claimed_sibling pdisk "vmdk") ∉ t)
  ∧ (EvExec qemu_img_bin
       (claimed_convertArgs "vmdk" (claimed_sibling pdisk "vmdk") pdisk) ∉ t)
  ∧ t = [EvLima lsArgs;
         EvExec qemu_img_bin ["info"; "--output=json"; pdisk];
         EvRename pdisk (pdisk ++ ".qcow2")%string;
         EvExec qemu_img_bin
           ["convert"; "-f"; "qcow2"; "-O"; "raw";
            (pdisk ++ ".qcow2")%string; pdisk]].
Proof.
  assert (Ht : tr (Ref.ensure (Ref.mgr "vz") w_vmdk)
               = [EvLima lsArgs;
                  EvExec qemu_img_bin ["info"; "--output=json"; pdisk];
                  EvRename pdisk (pdisk ++ ".qcow2")%string;
                  EvExec qemu_img_bin
                    ["convert"; "-f"; "qcow2"; "-O"; "raw";
                     (pdisk ++ ".qcow2")%string; pdisk]])
    by (vm_compute; reflexivity).
  cbv zeta. rewrite Ht.
  split; [by vm_compute|].
  split; [|split; [|reflexivity]];
    intros Hin; repeat (apply elem_of_cons in Hin as [Hin|Hin];
                        [vm_compute in Hin; discriminate|]);
    by apply elem_of_nil in Hin.
Qed.

(** ** C5 *)

(** C5 at a reinstall: with no registry disk, the qcow2 persistent file of
    an earlier install and a [vz] backend, the format is not raw, the run
    returns without error and the conversion has not run once, as C5 says,
    but not at all: the creation branch (source lines 115 to 122) has no
    conversion, which the branch for a registry disk that exists has (lines
    81 to 99). *)
Lemma qcow2_not_converted_after_create :
  config_VMType (Ref.mgr "vz") = "vz"
  ∧ Ref.files w_reinstalled !! pdisk = Some (Ref.File "qcow2")
  ∧ val (Ref.ensure (Ref.mgr "vz") w_reinstalled) = Ok tt
  ∧ count_calls is_convert (tr (Ref.ensure (Ref.mgr "vz") w_reinstalled)) = 0.
Proof. repeat split; by vm_compute. Qed.

(** ** C9 *)

(** C9: with any collaborators, when a step before lock clearance is
    reached and fails, the run returns the error of that step, its calls
    are those made up to and including that step and no other, the world
    is the one that step left, and the registry's unlock is not among the
    calls; and on the reference collaborators what the lock marker's path
    holds is then the same as at the start (that path being neither the
    persistent path nor its directory). *)
Theorem first_error_is_returned :
  (∀ (W : Type) (C : Collaborators W) m w e wf t,
     fails_before_clearance m w e wf t →
     EnsureUserDataDisk m w = mkRes (Err e) wf t
     ∧ count_calls is_unlock (tr (EnsureUserDataDisk m w)) = 0
     ∧ EvLima unlockArgs ∉ tr (EnsureUserDataDisk m w))
  ∧ (∀ m w e wf t,
       @fails_before_clearance _ (Ref.collaborators (finch_LimaHomePath m))
         m w e wf t →
       lockPathOf m ≠ diskPathOf m → lockPathOf m ≠ path.Dir (diskPathOf m) →
       st (Ref.ensure m w) = wf
       ∧ Ref.files wf !! lockPathOf m = Ref.files w !! lockPathOf m).
Proof.
  split.
  - intros W C m w e wf t. apply fails_before_clearance_run.
  - intros m w e wf t Hf Hd Hdir.
    destruct (fails_before_clearance_run m w e wf t Hf) as (Hrun & _).
    pose proof (fails_before_clearance_reconcile m w e wf t Hf) as Hrec.
    unfold Ref.ensure. rewrite Hrun. split; [reflexivity|].
    replace wf with (st (@reconcile _ (Ref.collaborators (finch_LimaHomePath m)) m w))
      by (by rewrite Hrec).
    apply (ref_reconcile_keeps m (lockPathOf m));
      [apply lockPath_ne_limaPath | done | apply lockPath_ne_qcowPath | done].
Qed.

Lemma first_error_is_returned_witness :
  (∃ e, val (Ref.ensure (Ref.mgr "vz") w_lost) = Err e)
  ∧ tr (Ref.ensure (Ref.mgr "vz") w_lost)
    = [EvLima lsArgs; EvExec qemu_img_bin ["info"; "--output=json"; pdisk]]
  ∧ Ref.files (st (Ref.ensure (Ref.mgr "vz") w_lost)) !! marker
    = Some (Ref.Symlink "/instance/default").
Proof.
  assert (Hf : @fails_before_clearance _ (Ref.collaborators home_lima)
                 (Ref.mgr "vz") w_lost
                 (ErrorfW "failed to get disk info for disk at %q: %w" [pdisk]
                          Ref.exitStatus)
                 w_lost
                 [EvLima lsArgs;
                  EvExec qemu_img_bin ["info"; "--output=json"; pdisk]]).
  { apply (@fail_inspect _ (Ref.collaborators home_lima) (Ref.mgr "vz") w_lost);
      vm_compute; reflexivity. }
  destruct first_error_is_returned as [Hany Href].
  destruct (Hany _ _ _ _ _ _ _ Hf) as (Hrun & _).
  destruct (Href (Ref.mgr "vz") w_lost _ _ _ Hf) as (Hst & Hmarker).
  - vm_compute. discriminate.
  - vm_compute. discriminate.
  - unfold Ref.ensure. change (finch_LimaHomePath (Ref.mgr "vz")) with home_lima.
    rewrite Hrun. cbn [val st tr].
    split; [by eexists|]. split; [reflexivity|]. exact Hmarker.
Defined.

(** ** C10 *)

(** C10: on the reference collaborators, after a run whose conversion
    succeeded the [.qcow2] sibling of the persistent path holds the image
    that was at the persistent path before the run, a qcow2 file, and it
    still does after any further runs, whatever VM type they are configured
    with (the persistent path being neither the slot nor the lock marker);
    and with any collaborators no run removes what is at that sibling path
    or moves it away: every removal is of the slot, every move is from the
    persistent path or from the slot. *)
Theorem pre_conversion_image_is_kept :
  (∀ m w,
     @conversion_succeeded _ (Ref.collaborators (finch_LimaHomePath m)) m w →
     let w' := st (Ref.ensure m w) in
     Ref.files w !! diskPathOf m = Some (Ref.File "qcow2")
     ∧ Ref.files w' !! qcowPathOf (diskPathOf m) = Ref.files w !! diskPathOf m
     ∧ (diskPathOf m ≠ limaPathOf m → diskPathOf m ≠ lockPathOf m →
        ∀ vmTypes,
          Ref.files (runs m vmTypes w') !! qcowPathOf (diskPathOf m)
          = Ref.files w !! diskPathOf m))
  ∧ (∀ (W : Type) (C : Collaborators W) m (w : W) ev,
       ev ∈ tr (EnsureUserDataDisk m w) →
       ev ≠ EvRemove (qcowPathOf (diskPathOf m))
       ∧ ∀ p, ev ≠ EvRename (qcowPathOf (diskPathOf m)) p).
Proof.
  split.
  - intros m w Hconv.
    destruct (ref_conversion_keeps_image m w Hconv) as (Hdisk & Hq & Hreg & Hraw).
    cbv zeta. split; [exact Hdisk|]. split; [exact Hq|].
    intros Hl Hk vmTypes. rewrite <- Hq.
    apply runs_settled_keep; try done.
    + by apply Hraw.
    + intros Heq. by apply (limaPath_ne_qcowPath m (diskPathOf m)).
    + intros Heq. by apply (lockPath_ne_qcowPath m (diskPathOf m)).
  - intros W C m w ev Hin.
    pose proof (EnsureUserDataDisk_calls_in m w) as Hall.
    rewrite Forall_forall in Hall. apply Hall in Hin.
    pose proof (qcowPath_ne (diskPathOf m)) as Hq.
    pose proof (limaPath_ne_qcowPath m (diskPathOf m)) as Hl.
    unfold reconcile_calls, attach_calls in Hin. simpl in Hin.
    repeat (apply elem_of_cons in Hin as [->|Hin];
            [split; [|intros p]; congruence|]).
    by apply elem_of_nil in Hin.
Qed.

Lemma pre_conversion_image_is_kept_witness :
  Ref.files (st (Ref.ensure (Ref.mgr "vz") w_qcow2_locked))
    !! (pdisk ++ ".qcow2")%string
  = Some (Ref.File "qcow2")
  ∧ Ref.files (runs (Ref.mgr "vz") ["vz"; "qemu"; "vz"]
                 (st (Ref.ensure (Ref.mgr "vz") w_qcow2_locked)))
      !! (pdisk ++ ".qcow2")%string
    = Some (Ref.File "qcow2").
Proof.
  destruct pre_conversion_image_is_kept as [Hkept _].
  destruct (Hkept (Ref.mgr "vz") w_qcow2_locked) as (Hdisk & Hq & Hruns).
  - split; [apply conversion_reachedb_spec|]; vm_compute; reflexivity.
  - change (qcowPathOf (diskPathOf (Ref.mgr "vz")))
      with (pdisk ++ ".qcow2")%string in *.
    split; [by rewrite Hq|].
    rewrite Hruns; [exact Hdisk | |]; vm_compute; discriminate.
Defined.


(** * More lemmas about the manager *)

(** ** The calls of a run, with any collaborators *)
Section MoreCalls.
Context {W : Type} `{Collaborators W}.
Variable m : userDataDiskManager.

Local Abbreviation disk := (diskPathOf m).
Local Abbreviation lima := (limaPathOf m).
Local Abbreviation lock := (lockPathOf m).
Local Abbreviation dir := (path.Dir (diskPathOf m)).
Local Abbreviation qcow := (qcowPathOf (diskPathOf m)).
Local Abbreviation vz := (String.eqb (config_VMType m) "vz").
Local Abbreviation attach := (attachPersistentDiskToLimaDisk m).

Lemma clearLock_run w :
  let s := fs_Stat lock w in
  let u := lcc_run unlockArgs s.2 in
  clearLock m w =
  if is_nil s.1 then
    mkRes match u.1.2 with
          | Some _ =>
              Err (Errorf ("failed to unlock disk, debug logs:" ++ newline ++ "%s")%string
                          [u.1.1])
          | None => Ok tt
          end
          u.2 [EvStat lock; EvLima unlockArgs]
  else mkRes (Ok tt) s.2 [EvStat lock].
Proof.
  cbv zeta. unfold clearLock, limaDiskIsLocked, unlockLimaDisk. repeat mstep.
  destruct (fs_Stat lock w).1 as [e|]; repeat mstep; [reflexivity|].
  by destruct (lcc_run unlockArgs _).1.2.
Qed.

Lemma tr_EnsureUserDataDisk w :
  tr (EnsureUserDataDisk m w)
  = tr (reconcile m w)
    ++ match val (reconcile m w) with
       | Ok _ => tr (clearLock m (st (reconcile m w)))
       | Err _ => []
       end.
Proof. rewrite EnsureUserDataDisk_phases, tr_bind. reflexivity. Qed.

Lemma tr_reconcile w :
  tr (reconcile m w)
  = EvLima lsArgs
    :: match val (limaDiskExists w) with
       | Ok true =>
           tr (bind (normalizeFormat m) (λ _, verifyLink m) (st (limaDiskExists w)))
       | Ok false => tr (createAndAttach m (st (limaDiskExists w)))
       | Err _ => []
       end.
Proof.
  unfold reconcile. rewrite tr_bind.
  destruct (limaDiskExists_run w) as [b ->]. cbn [tr val st app].
  by destruct b.
Qed.

Section Alphabet.
Variable p : event → bool.

Hypothesis p_attach : Forall (λ ev, p ev = false) (attach_calls m).

Lemma attach_calls_none : calls_in (λ ev, p ev = false) attach.
Proof.
  intros w. eapply Forall_impl; [apply attach_calls_in|].
  intros ev Hev. rewrite Forall_forall in p_attach. by apply p_attach.
Qed.

End Alphabet.

(** Neither link repair, link verification, the creation branch nor lock
    clearance runs the image tool. *)
Lemma attach_no_exec : calls_in (λ ev, is_exec ev = false) attach.
Proof. apply attach_calls_none. by repeat constructor. Qed.

Lemma verifyLink_no_exec : calls_in (λ ev, is_exec ev = false) (verifyLink m).
Proof.
  unfold verifyLink. repeat first [ apply attach_no_exec | calls_in_step ].
  reflexivity.
Qed.

Lemma createAndAttach_no_exec :
  calls_in (λ ev, is_exec ev = false) (createAndAttach m).
Proof.
  unfold createAndAttach, createLimaDisk.
  repeat first [ apply attach_no_exec | calls_in_step ]; reflexivity.
Qed.

Lemma clearLock_no_exec : calls_in (λ ev, is_exec ev = false) (clearLock m).
Proof.
  unfold clearLock, limaDiskIsLocked, unlockLimaDisk.
  repeat calls_in_step; reflexivity.
Qed.

(** After the list query nothing queries the registry's list again. *)
Lemma branch_no_ls :
  calls_in (λ ev, is_ls ev = false) (bind (normalizeFormat m) (λ _, verifyLink m))
  ∧ calls_in (λ ev, is_ls ev = false) (createAndAttach m)
  ∧ calls_in (λ ev, is_ls ev = false) (clearLock m).
Proof.
  assert (Ha : calls_in (λ ev, is_ls ev = false) attach).
  { apply attach_calls_none. by repeat constructor. }
  repeat split.
  - unfold normalizeFormat, verifyLink, getDiskInfo, convertToRaw.
    repeat first [ exact Ha | calls_in_step ]; reflexivity.
  - unfold createAndAttach, createLimaDisk.
    repeat first [ exact Ha | calls_in_step ]; reflexivity.
  - unfold clearLock, limaDiskIsLocked, unlockLimaDisk.
    repeat calls_in_step; reflexivity.
Qed.

Lemma ensure_ls_then_rest w :
  ∃ rest,
    tr (EnsureUserDataDisk m w) = EvLima lsArgs :: rest
    ∧ count_calls is_ls rest = 0
    ∧ (count_calls is_unlock rest ≤ 1)%nat
    ∧ (count_calls is_unlock rest = 1 → last rest = Some (EvLima unlockArgs)).
Proof.
  destruct branch_no_ls as (Hn & Hc & Hk).
  pose proof (reconcile_no_unlock m w) as Hnu.
  rewrite tr_EnsureUserDataDisk, tr_reconcile. rewrite tr_reconcile in Hnu.
  apply Forall_cons in Hnu as [_ Hnu].
  set (branch := match val (limaDiskExists w) with
                 | Ok true => _ | Ok false => _ | Err _ => _ end) in *.
  assert (Hbl : count_calls is_ls branch = 0).
  { apply count_calls_none. subst branch.
    destruct (val (limaDiskExists w)) as [[]|e]; [apply Hn | apply Hc | constructor]. }
  assert (Hbu : count_calls is_unlock branch = 0) by (by apply count_calls_none).
  clearbody branch.
  match goal with
  | |- ∃ rest, (_ :: _) ++ ?tail = _ ∧ _ => exists (branch ++ tail)
  end.
  split; [reflexivity|].
  rewrite !count_calls_app, Hbl, Hbu, !Nat.add_0_l.
  destruct (val (reconcile m w)) as [[]|e]; [|by repeat split; simpl; try lia].
  split; [apply count_calls_none, Hk|].
  rewrite clearLock_run. cbv zeta.
  destruct (is_nil _); cbn [tr]; unfold unlockArgs; simpl count_calls.
  - split; [lia|]. intros _. by rewrite last_app.
  - split; [lia|]. discriminate.
Qed.

(** How often the registry's create runs. *)
Lemma count_create w :
  count_calls is_create (tr (EnsureUserDataDisk m w))
  = match val (limaDiskExists w) with
    | Ok false => 1
    | _ => 0
    end.
Proof.
  assert (Ha : calls_in (λ ev, is_create ev = false) attach).
  { apply attach_calls_none. by repeat constructor. }
  assert (Hk : calls_in (λ ev, is_create ev = false) (clearLock m)).
  { unfold clearLock, limaDiskIsLocked, unlockLimaDisk.
    repeat calls_in_step; reflexivity. }
  assert (Hn : calls_in (λ ev, is_create ev = false)
                 (bind (normalizeFormat m) (λ _, verifyLink m))).
  { unfold normalizeFormat, verifyLink, getDiskInfo, convertToRaw.
    repeat first [ exact Ha | calls_in_step ]; reflexivity. }
  rewrite tr_EnsureUserDataDisk, tr_reconcile, count_calls_app.
  replace (count_calls is_create
             match val (reconcile m w) with
             | Ok _ => tr (clearLock m (st (reconcile m w)))
             | Err _ => []
             end) with 0
    by (destruct (val (reconcile m w)); [by rewrite (count_calls_none _ _ (Hk _))|done]).
  cbn [count_calls is_create lsArgs Nat.add]. rewrite Nat.add_0_r.
  destruct (val (limaDiskExists w)) as [[]|e]; [by apply count_calls_none| |done].
  unfold createAndAttach, createLimaDisk. rewrite bind_assoc, bind_call.
  cbn [after_calls tr app count_calls is_create createArgs Nat.add]. f_equal.
  destruct (lcc_run createArgs _).1.2; [reflexivity|].
  rewrite bind_ret. by apply count_calls_none.
Qed.

End MoreCalls.

(** ** What the returned error holds of a tool's error *)
Section ErrorChain.
Context {W : Type} `{Collaborators W}.
Variable m : userDataDiskManager.

Local Abbreviation disk := (diskPathOf m).
Local Abbreviation lima := (limaPathOf m).
Local Abbreviation lock := (lockPathOf m).
Local Abbreviation dir := (path.Dir (diskPathOf m)).
Local Abbreviation vz := (String.eqb (config_VMType m) "vz").
Local Abbreviation attach := (attachPersistentDiskToLimaDisk m).

Lemma getDiskInfo_fails w cause :
  (ecc_run (qemuImg m) (infoArgs disk) w).1.2 = Some cause →
  getDiskInfo m disk w
  = mkRes (Err (ErrorfW "failed to get disk info for disk at %q: %w" [disk] cause))
          (ecc_run (qemuImg m) (infoArgs disk) w).2
          [EvExec (qemuImg m) (infoArgs disk)].
Proof.
  intros Hc. unfold getDiskInfo. rewrite bind_call, Hc. reflexivity.
Qed.

Lemma createLimaDisk_fails w cause :
  (lcc_run createArgs w).1.2 = Some cause →
  createLimaDisk w
  = mkRes (Err (Errorf ("failed to create disk, debug logs:" ++ newline ++ "%s")%string
                       [(lcc_run createArgs w).1.1]))
          (lcc_run createArgs w).2 [EvLima createArgs].
Proof.
  intros Hc. unfold createLimaDisk. rewrite bind_call, Hc. reflexivity.
Qed.

Lemma inspect_error_run w cause :
  let q := limaDiskExists w in
  val q = Ok true → vz = true →
  (ecc_run (qemuImg m) (infoArgs disk) (st q)).1.2 = Some cause →
  val (EnsureUserDataDisk m w)
  = Err (ErrorfW "failed to get disk info for disk at %q: %w" [disk] cause).
Proof.
  intros q Hq Hvz Hc. subst q.
  set (q := limaDiskExists w) in *.
  pose proof (getDiskInfo_fails (st q) cause Hc) as Hi.
  assert (Hf : fails_before_clearance m w
                 (ErrorfW "failed to get disk info for disk at %q: %w" [disk] cause)
                 (st (getDiskInfo m disk (st q)))
                 (tr q ++ tr (getDiskInfo m disk (st q)))).
  { subst q. apply fail_inspect; [done | done | by rewrite Hi]. }
  apply fails_before_clearance_run in Hf as [-> _]. reflexivity.
Qed.

Lemma create_error_run w cause :
  let q := limaDiskExists w in
  val q = Ok false → (lcc_run createArgs (st q)).1.2 = Some cause →
  val (EnsureUserDataDisk m w)
  = Err (Errorf ("failed to create disk, debug logs:" ++ newline ++ "%s")%string
                [(lcc_run createArgs (st q)).1.1]).
Proof.
  intros q Hq Hc. subst q.
  set (q := limaDiskExists w) in *.
  pose proof (createLimaDisk_fails (st q) cause Hc) as Hi.
  assert (Hf : fails_before_clearance m w
                 (Errorf ("failed to create disk, debug logs:" ++ newline ++ "%s")%string
                         [(lcc_run createArgs (st q)).1.1])
                 (st (createLimaDisk (st q)))
                 (tr q ++ tr (createLimaDisk (st q)))).
  { subst q. apply fail_create; [done | by rewrite Hi]. }
  apply fails_before_clearance_run in Hf as [-> _]. reflexivity.
Qed.

End ErrorChain.


(** ** Success, and the persistent file, on the reference collaborators *)
Section OnRefMore.
Variable m : userDataDiskManager.

Local Abbreviation C := (Ref.collaborators (finch_LimaHomePath m)).
Local Abbreviation disk := (diskPathOf m).
Local Abbreviation lima := (limaPathOf m).
Local Abbreviation lock := (lockPathOf m).
Local Abbreviation dir := (path.Dir (diskPathOf m)).
Local Abbreviation qcow := (qcowPathOf (diskPathOf m)).
Local Abbreviation vz := (String.eqb (config_VMType m) "vz").
Local Abbreviation attach := (@attachPersistentDiskToLimaDisk _ C m).

Lemma ref_attach_ok w :
  post attach w (λ v w',
    (Ref.files w !! disk ≠ None ∨ Ref.files w !! lima ≠ None → v = Ok tt)
    ∧ (v = Ok tt → Ref.files w !! disk ≠ None → Ref.files w' !! disk ≠ None)
    ∧ (v = Ok tt → lima ≠ dir →
       Ref.files w !! disk ≠ None ∨ Ref.files w !! lima ≠ None)).
Proof.
  unfold attachPersistentDiskToLimaDisk, persistentDiskExists.
  set (d := dir). set (dk := disk). set (lm := lima). clearbody d dk lm.
  repeat wp_step; wp_done.
  all: try (by left); try (by right).
  all: try (match goal with H : _ ∨ _ |- _ => destruct H end; congruence).
Qed.

Lemma ref_clearLock_ok w :
  val (@clearLock _ C m w) = Ok tt ↔ Ref.files w !! lock ≠ Some Ref.Dir.
Proof.
  change (post (@clearLock _ C m) w
            (λ v _, v = Ok tt ↔ Ref.files w !! lock ≠ Some Ref.Dir)).
  unfold clearLock, limaDiskIsLocked, unlockLimaDisk.
  repeat first [ rewrite ref_unlock | wp_step ]; wp_done.
Qed.

Lemma ref_convertToRaw_ok w :
  val (@convertToRaw _ C m disk w) = Ok tt
  ↔ Ref.files w !! disk = Some (Ref.File "qcow2").
Proof.
  pose proof (qcowPath_ne disk) as Hq.
  change (post (@convertToRaw _ C m disk) w
            (λ v _, v = Ok tt ↔ Ref.files w !! disk = Some (Ref.File "qcow2"))).
  unfold convertToRaw. cbv zeta.
  repeat first [ rewrite ref_convert | wp_step ]; wp_done.
Qed.

Lemma ref_normalizeFormat_ok w :
  post (@normalizeFormat _ C m) w (λ v w',
    (v = Ok tt ↔
     (vz = true → Ref.files w !! disk = Some (Ref.File "raw")
                  ∨ Ref.files w !! disk = Some (Ref.File "qcow2")))
    ∧ (v = Ok tt → vz = true → Ref.files w' !! disk ≠ None)
    ∧ (vz = false → w' = w)).
Proof.
  unfold post. rewrite normalizeFormat_unfold.
  destruct vz eqn:Hvz; [|by repeat split].
  rewrite bind_unfold, ref_getDiskInfo. cbn [val st tr].
  destruct (Ref.files w !! disk) as [[format| |]|] eqn:Hdisk; cbn [val st];
    try (repeat split; try done; intros Hc; by destruct Hc).
  destruct (String.eqb_spec format "") as [->|Hne]; cbn [val st].
  { repeat split; try done. intros Hc. by destruct Hc. }
  cbn [Format]. destruct (String.eqb_spec format "raw") as [->|Hraw]; cbn [negb].
  { rewrite st_after_calls. cbn [val st ret after_calls].
    repeat split; try done; auto. intros _ _. by rewrite Hdisk. }
  rewrite st_after_calls. cbn [val after_calls].
  rewrite bind_unfold.
  pose proof (ref_convertToRaw_ok w) as Hcv. rewrite Hdisk in Hcv.
  pose proof (ref_convertToRaw_post m w) as Hcp. unfold post in Hcp.
  destruct (val (@convertToRaw _ C m disk w)) as [[]|e] eqn:Hc; cbn [val st].
  - destruct Hcp as (_ & _ & Hafter). destruct Hafter as (_ & Hraw' & _); [done|].
    pose proof (ref_attach_ok (st (@convertToRaw _ C m disk w))) as Ha.
    unfold post in Ha. destruct Ha as (Hok & Hkeep & _).
    rewrite st_after_calls. cbn [val after_calls].
    rewrite Hok by (left; by rewrite Hraw').
    repeat split; try done.
    + intros _ _. right. by apply Hcv.
    + intros _ _. apply Hkeep; [|by rewrite Hraw']. apply Hok. left. by rewrite Hraw'.
  - repeat split; try done. intros Hcase.
    destruct (Hcase eq_refl) as [Hr|Hq]; [congruence|].
    apply Hcv in Hq. discriminate.
Qed.

Lemma ref_verifyLink_ok w :
  (Ref.files w !! disk ≠ None ∨ Ref.files w !! lima ≠ None →
   val (@verifyLink _ C m w) = Ok tt)
  ∧ (val (@verifyLink _ C m w) = Ok tt → disk ≠ "" → lima ≠ dir →
     Ref.files w !! disk ≠ None ∨ Ref.files w !! lima ≠ None).
Proof.
  pose proof (ref_attach_ok w) as Ha. unfold post in Ha.
  destruct Ha as (Hok & _ & Hback).
  rewrite verifyLink_unfold. cbv zeta. ref_ops.
  destruct (Ref.files w !! lima) as [[f|t|]|] eqn:Hl; cbn [fst snd];
    try destruct (String.eqb_spec t disk) as [->|Ht];
    try destruct (String.eqb_spec "" disk) as [He|He];
    cbn [negb val after_calls];
    split; try done; try (intros; by right); try (intros; by apply Hback);
    try (intros; by apply Hok).
Qed.

Lemma ref_createLimaDisk_ok w :
  val (@createLimaDisk _ C w) = Ok tt ↔ diskName ∉ Ref.disks w.
Proof.
  unfold createLimaDisk. rewrite bind_call. cbn [lcc_run Ref.collaborators].
  rewrite ref_create.
  destruct (bool_decide_reflect (diskName ∈ Ref.disks w)); cbn [fst snd val after_calls ret];
    split; done.
Qed.

Lemma ref_reconcile_ok w :
  (can_reconcile m w → val (@reconcile _ C m w) = Ok tt)
  ∧ (val (@reconcile _ C m w) = Ok tt → disk ≠ "" → lima ≠ dir → can_reconcile m w).
Proof.
  unfold reconcile, can_reconcile.
  rewrite bind_unfold, ref_limaDiskExists. cbn [val st tr after_calls].
  destruct (bool_decide_reflect (diskName ∈ Ref.disks w)) as [Hreg|Hreg].
  - rewrite bind_unfold.
    pose proof (ref_normalizeFormat_ok w) as Hn. unfold post in Hn.
    destruct Hn as (Hnok & Hpresent & Hsame).
    destruct (val (@normalizeFormat _ C m w)) as [[]|e] eqn:Hv; cbn [val after_calls].
    + destruct (ref_verifyLink_ok (st (@normalizeFormat _ C m w))) as (Hvok & Hvback).
      destruct vz eqn:Hvz.
      * split; [|intros _ _ _ _; by apply Hnok].
        intros _. apply Hvok. left. by apply Hpresent.
      * rewrite Hsame in * by done. split; [intros Hc; by apply Hvok, Hc|].
        intros Hok Hne Hdir _. by apply Hvback.
    + split; [|done]. intros Hc. specialize (Hc Hreg).
      destruct vz; [|by apply Hnok]. by apply Hnok.
  - split; [|done]. intros _. unfold createAndAttach. rewrite bind_unfold.
    pose proof (ref_createLimaDisk_post m w) as Hc. unfold post in Hc.
    destruct Hc as (_ & Hcreated).
    rewrite (proj2 (ref_createLimaDisk_ok w) Hreg) in *. cbn [val after_calls].
    destruct Hcreated as (Hslot & _); [done|].
    pose proof (ref_attach_ok (st (@createLimaDisk _ C w))) as Ha. unfold post in Ha.
    destruct Ha as (Hok & _). apply Hok. right. by rewrite Hslot.
Qed.

Lemma ref_ensure_ok w :
  lock ≠ disk → lock ≠ dir →
  (can_reconcile m w → Ref.files w !! lock ≠ Some Ref.Dir →
   val (Ref.ensure m w) = Ok tt)
  ∧ (val (Ref.ensure m w) = Ok tt → disk ≠ "" → lima ≠ dir →
     can_reconcile m w ∧ Ref.files w !! lock ≠ Some Ref.Dir).
Proof.
  intros Hd Hdir.
  pose proof (ref_reconcile_keeps m lock (lockPath_ne_limaPath m) Hd
                (lockPath_ne_qcowPath m disk) Hdir w) as Hkeep.
  unfold same_at in Hkeep.
  destruct (ref_reconcile_ok w) as (Hrok & Hrback).
  pose proof (ref_clearLock_ok (st (@reconcile _ C m w))) as Hk.
  rewrite Hkeep in Hk.
  unfold Ref.ensure. rewrite EnsureUserDataDisk_phases, bind_unfold.
  destruct (val (@reconcile _ C m w)) as [[]|e]; cbn [val after_calls].
  - split; [intros _; apply Hk|]. intros Hok Hne Hld. split; [by apply Hrback|].
    by apply Hk.
  - split; [|done]. intros Hc _. by apply Hrok.
Qed.

(** What was at the persistent path at the start is there or at the
    [.qcow2] sibling afterwards. *)
Lemma ref_convertToRaw_image w n :
  Ref.files w !! disk = Some n →
  Ref.files (st (@convertToRaw _ C m disk w)) !! qcow = Some n.
Proof.
  intros Hdisk. pose proof (qcowPath_ne disk) as Hq.
  change (post (@convertToRaw _ C m disk) w
            (λ _ w', Ref.files w' !! qcow = Some n)).
  unfold convertToRaw. cbv zeta.
  repeat first [ rewrite ref_convert | wp_step ]; wp_done.
Qed.

Lemma ref_normalizeFormat_image w n :
  Ref.files w !! disk = Some n →
  let w' := st (@normalizeFormat _ C m w) in
  Ref.files w' !! disk = Some n ∨ Ref.files w' !! qcow = Some n.
Proof.
  intros Hdisk. cbv zeta.
  pose proof (limaPath_ne_qcowPath m disk) as Hlq.
  rewrite normalizeFormat_unfold.
  destruct vz; [|by left].
  rewrite bind_unfold, ref_getDiskInfo. cbn [val st tr].
  destruct (match Ref.files w !! disk with
            | Some (Ref.File format) => _ | _ => _ end) as [info|e]; [|by left].
  cbn [st]. rewrite st_after_calls.
  destruct (negb (String.eqb (Format info) "raw")); [|by left].
  right. rewrite bind_unfold.
  pose proof (ref_convertToRaw_image w n Hdisk) as Hq.
  pose proof (ref_convertToRaw_post m w) as Hcp. unfold post in Hcp.
  destruct Hcp as (_ & _ & Hafter).
  destruct (val (@convertToRaw _ C m disk w)) as [[]|e]; cbn [st]; [|done].
  rewrite st_after_calls.
  destruct Hafter as (_ & Hraw & _); [done|].
  pose proof (ref_attach_post m (st (@convertToRaw _ C m disk w))) as Ha.
  unfold post in Ha. destruct Ha as (_ & Hkeep & _).
  rewrite Hkeep; [done | by rewrite Hraw | done].
Qed.

Lemma ref_reconcile_image w n :
  disk ≠ lima → Ref.files w !! disk = Some n →
  let w' := st (@reconcile _ C m w) in
  Ref.files w' !! disk = Some n
  ∨ (diskName ∈ Ref.disks w ∧ vz = true ∧ Ref.files w' !! qcow = Some n).
Proof.
  intros Hne Hdisk. cbv zeta.
  pose proof (limaPath_ne_qcowPath m disk) as Hlq.
  unfold reconcile. rewrite bind_unfold, ref_limaDiskExists. cbn [val st tr].
  rewrite st_after_calls.
  destruct (bool_decide_reflect (diskName ∈ Ref.disks w)) as [Hreg|Hreg].
  - rewrite bind_unfold.
    pose proof (ref_normalizeFormat_image w n Hdisk) as Himg. cbv zeta in Himg.
    pose proof (ref_normalizeFormat_ok w) as Hn. unfold post in Hn.
    destruct Hn as (_ & Hpresent & Hsame).
    destruct vz eqn:Hvz.
    + destruct (val (@normalizeFormat _ C m w)) as [[]|e]; cbn [st];
        [|destruct Himg; auto].
      rewrite st_after_calls.
      pose proof (ref_verifyLink_keeps m (st (@normalizeFormat _ C m w))) as Hv.
      unfold post in Hv. destruct Hv as (_ & Hkeep).
      rewrite !Hkeep; [destruct Himg; auto | by apply Hpresent | done
                       | by apply Hpresent | done].
    + rewrite Hsame in * by done. left.
      destruct (val (@normalizeFormat _ C m w)) as [[]|e]; cbn [st]; [|done].
      rewrite st_after_calls.
      pose proof (ref_verifyLink_keeps m w) as Hv.
      unfold post in Hv. destruct Hv as (_ & Hkeep).
      rewrite Hkeep; [done | by rewrite Hdisk | done].
  - left. unfold createAndAttach. rewrite bind_unfold.
    pose proof (ref_createLimaDisk_post m w) as Hc. unfold post in Hc.
    destruct Hc as (Hframe & _).
    destruct (val (@createLimaDisk _ C w)) as [[]|e]; cbn [st];
      [|by rewrite Hframe].
    rewrite st_after_calls.
    pose proof (ref_attach_post m (st (@createLimaDisk _ C w))) as Ha.
    unfold post in Ha. destruct Ha as (_ & Hkeep & _).
    rewrite Hkeep; [by rewrite Hframe | by rewrite Hframe, Hdisk | done].
Qed.

Lemma ref_ensure_image w n :
  disk ≠ lima → disk ≠ lock → Ref.files w !! disk = Some n →
  let w' := st (Ref.ensure m w) in
  Ref.files w' !! disk = Some n
  ∨ (diskName ∈ Ref.disks w ∧ vz = true ∧ Ref.files w' !! qcow = Some n).
Proof.
  intros Hne Hnl Hdisk. cbv zeta.
  pose proof (lockPath_ne_qcowPath m disk) as Hkq.
  pose proof (ref_reconcile_image w n Hne Hdisk) as Himg. cbv zeta in Himg.
  unfold Ref.ensure. rewrite EnsureUserDataDisk_phases, bind_unfold.
  destruct (val (@reconcile _ C m w)) as [[]|e]; cbn [st]; [|done].
  rewrite st_after_calls.
  pose proof (ref_clearLock_post m (st (@reconcile _ C m w))) as Hk.
  unfold post in Hk. destruct Hk as (_ & Hkeep & _).
  rewrite !Hkeep; done.
Qed.

(** A registry disk without a persistent file, under [vz]: the inspection
    fails and nothing is done. *)
Lemma ref_ensure_missing w :
  diskName ∈ Ref.disks w → vz = true → Ref.files w !! disk = None →
  Ref.ensure m w
  = mkRes (Err (ErrorfW "failed to get disk info for disk at %q: %w" [disk]
                        Ref.exitStatus))
          w [EvLima lsArgs; EvExec (qemuImg m) (infoArgs disk)].
Proof.
  intros Hreg Hvz Hdisk.
  unfold Ref.ensure. rewrite EnsureUserDataDisk_phases. unfold reconcile.
  rewrite bind_assoc, bind_unfold, ref_limaDiskExists. cbn [val st tr].
  rewrite bool_decide_eq_true_2 by done.
  rewrite !bind_assoc, bind_unfold, normalizeFormat_unfold, Hvz.
  rewrite bind_unfold, ref_getDiskInfo, Hdisk. reflexivity.
Qed.

(** A registry disk whose persistent file is in another format than raw
    and qcow2, under [vz]: the file is moved to the [.qcow2] sibling and
    the conversion fails. *)
Lemma ref_ensure_unconvertible w format :
  diskName ∈ Ref.disks w → vz = true →
  Ref.files w !! disk = Some (Ref.File format) →
  format ≠ "" → format ≠ "raw" → format ≠ "qcow2" →
  Ref.ensure m w
  = mkRes (Err (ErrorfW "failed to convert disk %q from qcow2 to raw: %w" [disk]
                        Ref.exitStatus))
          (Ref.mkWorld (<[qcow := Ref.File format]> (delete disk (Ref.files w)))
                       (Ref.disks w))
          [EvLima lsArgs; EvExec (qemuImg m) (infoArgs disk);
           EvRename disk qcow; EvExec (qemuImg m) (convertArgs qcow disk)].
Proof.
  intros Hreg Hvz Hdisk He%String.eqb_neq Hr%String.eqb_neq Hq%String.eqb_neq.
  unfold Ref.ensure. rewrite EnsureUserDataDisk_phases. unfold reconcile.
  rewrite bind_assoc, bind_unfold, ref_limaDiskExists. cbn [val st tr].
  rewrite bool_decide_eq_true_2 by done.
  rewrite !bind_assoc, bind_unfold, normalizeFormat_unfold, Hvz.
  rewrite bind_unfold, ref_getDiskInfo, Hdisk, He. cbn [val st tr Format].
  rewrite Hr. cbn [negb]. rewrite bind_unfold, convertToRaw_run. cbv zeta.
  ref_ops. rewrite Hdisk. cbn [fst snd]. rewrite ref_convert.
  cbn [Ref.files Ref.disks]. rewrite lookup_insert_eq, Hq. reflexivity.
Qed.

End OnRefMore.

Lemma ref_runs_missing m w k :
  diskName ∈ Ref.disks w → Ref.files w !! diskPathOf m = None →
  runs m (replicate k "vz") w = w.
Proof.
  intros Hreg Hdisk. induction k as [|k IH]; [reflexivity|].
  cbn [replicate runs].
  rewrite (ref_ensure_missing (with_VMType m "vz") w Hreg eq_refl Hdisk).
  exact IH.
Qed.

(** A raw persistent file is left as it is by a run, whatever the backend
    and whether the registry has the disk or not. *)
Lemma ref_ensure_raw_stays m w :
  diskPathOf m ≠ limaPathOf m → diskPathOf m ≠ lockPathOf m →
  Ref.files w !! diskPathOf m = Some (Ref.File "raw") →
  Ref.files (st (Ref.ensure m w)) !! diskPathOf m = Some (Ref.File "raw").
Proof.
  intros Hl Hk Hraw.
  destruct (decide (diskName ∈ Ref.disks w)) as [Hreg|Hreg].
  - destruct (ref_ensure_settled_keeps m w Hreg Hraw) as (_ & Hkeep).
    by rewrite Hkeep.
  - destruct (ref_ensure_image m w _ Hl Hk Hraw) as [?|(? & _)]; done.
Qed.

(** ** The errors of the steps *)
Section ErrorSourceFacts.
Context {W : Type} `{Collaborators W}.
Variable m : userDataDiskManager.

Local Abbreviation disk := (diskPathOf m).
Local Abbreviation lima := (limaPathOf m).
Local Abbreviation lock := (lockPathOf m).
Local Abbreviation dir := (path.Dir (diskPathOf m)).
Local Abbreviation qcow := (qcowPathOf (diskPathOf m)).
Local Abbreviation vz := (String.eqb (config_VMType m) "vz").
Local Abbreviation attach := (attachPersistentDiskToLimaDisk m).

Lemma inspect_error_iff w e :
  val (getDiskInfo m disk w) = Err e ↔ inspect_error m w e.
Proof.
  unfold getDiskInfo. rewrite bind_call. split.
  - destruct (ecc_run (qemuImg m) (infoArgs disk) w).1.2 as [cause|] eqn:Hc;
      cbn [val after_calls fail].
    + intros [= <-]. by apply inspect_command.
    + destruct (json_Unmarshal_qemuDiskInfo _) as [cause|info] eqn:Hd;
        cbn [val fail ret]; [|discriminate].
      intros [= <-]. by apply inspect_decode.
  - destruct 1 as [cause i Hc|cause i Hc Hd]; subst i; rewrite Hc; [reflexivity|].
    by rewrite Hd.
Qed.

Lemma convert_error_iff w e :
  val (convertToRaw m disk w) = Err e ↔ convert_error m w e.
Proof.
  rewrite convertToRaw_run. cbv zeta. split.
  - destruct (fs_Rename disk qcow w).1 as [cause|] eqn:Hr; cbn [val].
    + intros [= <-]. by apply convert_rename.
    + destruct (ecc_run _ _ _).1.2 as [cause|] eqn:Hc; [|discriminate].
      intros [= <-]. by apply convert_command.
  - destruct 1 as [cause r Hr|cause r c Hr Hc]; subst r; rewrite Hr; [reflexivity|].
    subst c. cbn [val]. by rewrite Hc.
Qed.

Lemma create_error_iff w e :
  val (createLimaDisk w) = Err e ↔ create_error w e.
Proof.
  unfold createLimaDisk. rewrite bind_call. split.
  - destruct (lcc_run createArgs w).1.2 as [cause|] eqn:Hc;
      cbn [val after_calls fail ret]; [|discriminate].
    intros [= <-]. by eapply create_command.
  - destruct 1 as [cause c Hc]; subst c. by rewrite Hc.
Qed.

Lemma unlock_error_iff w e :
  val (unlockLimaDisk w) = Err e ↔ unlock_error w e.
Proof.
  unfold unlockLimaDisk. rewrite bind_call. split.
  - destruct (lcc_run unlockArgs w).1.2 as [cause|] eqn:Hc;
      cbn [val after_calls fail ret]; [|discriminate].
    intros [= <-]. by eapply unlock_command.
  - destruct 1 as [cause u Hu]; subst u. by rewrite Hu.
Qed.

Lemma move_error_iff w e :
  val (moveSlot m w) = Err e ↔ move_error m w e.
Proof.
  rewrite moveSlot_run. cbv zeta. split.
  - destruct (fs_Stat dir w).1 as [e0|] eqn:Hd.
    + destruct (errors_Is_ErrNotExist e0) eqn:He0.
      * destruct (fs_MkdirAll dir 493 _).1 as [cause|] eqn:Hmk; cbn [val].
        -- intros [= <-]. by eapply move_mkdir.
        -- destruct (fs_Rename lima disk _).1 as [cause|] eqn:Hmv; [|discriminate].
           intros [= <-]. by eapply move_rename_after_mkdir.
      * cbn [val].
        destruct (fs_Rename lima disk _).1 as [cause|] eqn:Hmv; [|discriminate].
        intros [= <-]. apply move_rename; [|done].
        intros e1 He1. rewrite Hd in He1. by injection He1 as <-.
    + cbn [val].
      destruct (fs_Rename lima disk _).1 as [cause|] eqn:Hmv; [|discriminate].
      intros [= <-]. apply move_rename; [|done].
      intros e1 He1. by rewrite Hd in He1.
  - destruct 1 as [e0 cause d mk Hd He0 Hmk
                  |e0 cause d mk mv Hd He0 Hmk Hmv
                  |cause d mv Hd Hmv]; subst d.
    + subst mk. by rewrite Hd, He0, Hmk.
    + subst mk mv. rewrite Hd, He0, Hmk. cbn [val]. by rewrite Hmv.
    + subst mv. destruct (fs_Stat dir w).1 as [e0|].
      * rewrite (Hd e0 eq_refl). cbn [val]. by rewrite Hmv.
      * cbn [val]. by rewrite Hmv.
Qed.

Lemma link_error_iff w e :
  val (clearSlotAndLink m w) = Err e ↔ link_error m w e.
Proof.
  rewrite clearSlotAndLink_run. cbv zeta. split.
  - destruct (fs_Stat lima w).1 as [e0|] eqn:Hs.
    + destruct (errors_Is_ErrNotExist e0) eqn:He0; cbn [val].
      * destruct (fs_SymlinkIfPossible disk lima _).1 as [e1|] eqn:Hln;
          cbn [of_err]; [|discriminate].
        intros [= <-]. by eapply link_symlink.
      * intros [= <-]. by apply link_stat.
    + destruct (fs_Remove lima _).1 as [e1|] eqn:Hrm; cbn [val].
      * intros [= <-]. by apply link_remove.
      * destruct (fs_SymlinkIfPossible disk lima _).1 as [e1|] eqn:Hln;
          cbn [of_err]; [|discriminate].
        intros [= <-]. by apply link_symlink_after_remove.
  - destruct 1 as [e s Hs He|e s rm Hs Hrm|e s rm ln Hs Hrm Hln|e0 e s ln Hs He0 Hln];
      subst s.
    + by rewrite Hs, He.
    + subst rm. by rewrite Hs, Hrm.
    + subst rm ln. rewrite Hs, Hrm. cbn [val]. by rewrite Hln.
    + subst ln. rewrite Hs, He0. cbn [val]. by rewrite Hln.
Qed.

Lemma link_repair_error_iff w e :
  val (attach w) = Err e ↔ link_repair_error m w e.
Proof.
  rewrite attach_run. cbv zeta. cbn [val after_calls]. split.
  - destruct (fs_Stat disk w).1 as [e0|] eqn:Hs.
    + rewrite bind_unfold.
      destruct (val (moveSlot m _)) as [[]|e1] eqn:Hmv; cbn [val after_calls].
      * intros He%link_error_iff. apply repair_link_after_move; [by rewrite Hs|done..].
      * intros [= <-]. apply repair_move; [by rewrite Hs|]. by apply move_error_iff.
    + intros He%link_error_iff. by apply repair_link.
  - destruct 1 as [s Hs He|s mv Hs Hmv He|s Hs He]; subst s.
    + destruct (fs_Stat disk w).1; [|done].
      apply move_error_iff in He. by rewrite (bind_Err _ _ _ _ He).
    + subst mv. destruct (fs_Stat disk w).1; [|done].
      rewrite (bind_Ok _ _ _ _ Hmv). cbn [val after_calls]. by apply link_error_iff.
    + rewrite Hs. by apply link_error_iff.
Qed.

End ErrorSourceFacts.

(** Under [vz] a run without error leaves a raw persistent file from a
    start that normalizes. *)
Lemma ref_ensure_raw m w :
  diskPathOf m ≠ "" → diskPathOf m ≠ limaPathOf m → diskPathOf m ≠ lockPathOf m →
  val (Ref.ensure m w) = Ok tt → config_VMType m = "vz" →
  normalizing_start m w →
  Ref.files (st (Ref.ensure m w)) !! diskPathOf m = Some (Ref.File "raw").
Proof.
  intros Hne Hl Hk Hok Hvz%String.eqb_eq [Hreg|[Habs|Hraw]].
  - destruct (ref_ensure_post m Hne w Hok) as (_ & _ & _ & Hr). apply Hr; auto.
  - destruct (ref_ensure_post m Hne w Hok) as (_ & _ & _ & Hr). apply Hr; auto.
  - by apply ref_ensure_raw_stays.
Qed.


(** * Further properties of the manager *)

(** ** Which calls a run can make *)

(** X1: with any collaborators, every call of a run is one of fifteen: the
    registry is asked about the disk named finch only (list, create with
    size 50G and format raw, unlock); the image tool inspects the
    persistent path and converts its [.qcow2] sibling into it; only the
    persistent path, its directory, the slot and the lock marker are
    stat'ed; only the directory of the persistent path is created, with
    mode 0755; only the persistent file (to its sibling) and the slot's
    file (to the persistent path) are moved; only the slot is removed,
    read as a link or made a symlink, to the persistent path. *)
Theorem ensure_makes_only_these_calls
    {W : Type} `{Collaborators W} (m : userDataDiskManager) (w : W) :
  Forall (λ ev, ev ∈ ensure_calls m) (tr (EnsureUserDataDisk m w)).
Proof.
  eapply Forall_impl; [apply EnsureUserDataDisk_calls_in|].
  intros ev Hev. unfold reconcile_calls, attach_calls in Hev. simpl in Hev.
  unfold ensure_calls.
  repeat (apply elem_of_cons in Hev as [->|Hev]; [in_list|]).
  by apply elem_of_nil in Hev.
Qed.

(** X2: with any collaborators, a run whose backend is not [vz], or whose
    existence query answers that the registry has no disk, never runs the
    image tool: neither inspection nor conversion. *)
Theorem image_tool_only_for_vz_disk
    {W : Type} `{Collaborators W} (m : userDataDiskManager) (w : W) :
  config_VMType m ≠ "vz" ∨ val (limaDiskExists w) = Ok false →
  Forall (λ ev, is_exec ev = false) (tr (EnsureUserDataDisk m w)).
Proof.
  intros Hcase. rewrite tr_EnsureUserDataDisk. apply Forall_app. split.
  - rewrite tr_reconcile. constructor; [reflexivity|].
    destruct (val (limaDiskExists w)) as [[]|e] eqn:Hq.
    + destruct Hcase as [Hvz%String.eqb_neq|?]; [|done].
      rewrite tr_bind, normalizeFormat_unfold, Hvz. cbn [ret tr val st app].
      apply verifyLink_no_exec.
    + apply createAndAttach_no_exec.
    + constructor.
  - destruct (val (reconcile m w)); [apply clearLock_no_exec | constructor].
Qed.

Lemma image_tool_only_for_vz_disk_witness :
  Forall (λ ev, is_exec ev = false) (tr (Ref.ensure (Ref.mgr "qemu") w_unlinked))
  ∧ Forall (λ ev, is_exec ev = false) (tr (Ref.ensure (Ref.mgr "vz") w_reinstalled)).
Proof.
  split.
  - apply (@image_tool_only_for_vz_disk _ (Ref.collaborators home_lima)
             (Ref.mgr "qemu") w_unlinked).
    left. vm_compute. discriminate.
  - apply (@image_tool_only_for_vz_disk _ (Ref.collaborators home_lima)
             (Ref.mgr "vz") w_reinstalled).
    right. vm_compute. reflexivity.
Defined.

(** X3: with any collaborators, a run begins with the registry's list query
    and never repeats it; it calls the registry's create once when the
    query answered that there is no disk and not at all otherwise; and it
    calls the registry's unlock at most once, as its last call. *)
Theorem list_query_first_unlock_last
    {W : Type} `{Collaborators W} (m : userDataDiskManager) (w : W) :
  ∃ rest,
    tr (EnsureUserDataDisk m w) = EvLima lsArgs :: rest
    ∧ count_calls is_ls rest = 0
    ∧ count_calls is_create rest
      = match val (limaDiskExists w) with
        | Ok false => 1
        | _ => 0
        end
    ∧ (count_calls is_unlock rest ≤ 1)%nat
    ∧ (count_calls is_unlock rest = 1 → last rest = Some (EvLima unlockArgs)).
Proof.
  destruct (ensure_ls_then_rest m w) as (rest & Htr & Hls & Hle & Hlast).
  exists rest. split; [exact Htr|]. split; [exact Hls|].
  split; [|by split].
  rewrite <- (count_create m w), Htr. reflexivity.
Qed.

Lemma list_query_first_unlock_last_witness :
  last (tr (Ref.ensure (Ref.mgr "vz") w_qcow2_locked)) = Some (EvLima unlockArgs).
Proof.
  destruct (@list_query_first_unlock_last _ (Ref.collaborators home_lima)
              (Ref.mgr "vz") w_qcow2_locked) as (rest & Htr & _ & _ & _ & Hlast).
  unfold Ref.ensure. change (finch_LimaHomePath (Ref.mgr "vz")) with home_lima.
  rewrite Htr. vm_compute in Htr. injection Htr as <-.
  rewrite last_cons, Hlast; reflexivity.
Defined.

(** ** Errors *)

(** X4: with any collaborators: when the inspection command fails, the error
    of the run wraps the command's error, so that a not-exist cause (the
    image tool is missing) is still seen through it; when the registry's
    create fails, the error of the run is made of the command's output
    alone, so that it is the same whatever the command's error was and a
    not-exist cause (the registry tool is missing) is not seen in it. *)
Theorem tool_error_in_returned_error :
  (∀ (W : Type) (C : Collaborators W) m (w : W) cause,
     let q := limaDiskExists w in
     val q = Ok true → config_VMType m = "vz" →
     (ecc_run (qemuImg m) (infoArgs (diskPathOf m)) (st q)).1.2 = Some cause →
     ∃ e, val (EnsureUserDataDisk m w) = Err e
          ∧ e = ErrorfW "failed to get disk info for disk at %q: %w"
                        [diskPathOf m] cause
          ∧ errors_Is_ErrNotExist e = errors_Is_ErrNotExist cause)
  ∧ (∀ (W : Type) (C : Collaborators W) m (w : W) cause,
       let q := limaDiskExists w in
       val q = Ok false → (lcc_run createArgs (st q)).1.2 = Some cause →
       ∃ e, val (EnsureUserDataDisk m w) = Err e
            ∧ e = Errorf ("failed to create disk, debug logs:" ++ newline ++ "%s")%string
                         [(lcc_run createArgs (st q)).1.1]
            ∧ errors_Is_ErrNotExist e = false).
Proof.
  split.
  - intros W C m w cause q Hq Hvz%String.eqb_eq Hc. eexists.
    split; [by apply (inspect_error_run m w cause)|]. by split.
  - intros W C m w cause q Hq Hc. eexists.
    split; [by apply (create_error_run m w cause)|]. by split.
Qed.

Lemma tool_error_in_returned_error_witness :
  (∃ e, val (@EnsureUserDataDisk _ (Faulty.collaborators no_image_tool_only home_lima)
               (Ref.mgr "vz") w_qcow2_locked) = Err e
        ∧ errors_Is_ErrNotExist e = true)
  ∧ (∃ e, val (@EnsureUserDataDisk _ (Faulty.collaborators no_tools home_lima)
                 (Ref.mgr "vz") w_fresh) = Err e
          ∧ errors_Is_ErrNotExist e = false).
Proof.
  destruct tool_error_in_returned_error as [Hinfo Hcreate].
  split.
  - destruct (Hinfo _ (Faulty.collaborators no_image_tool_only home_lima)
                (Ref.mgr "vz") w_qcow2_locked ErrNotExist) as (e & He & _ & His).
    + vm_compute. reflexivity.
    + reflexivity.
    + vm_compute. reflexivity.
    + exists e. split; [exact He|]. rewrite His. reflexivity.
  - destruct (Hcreate _ (Faulty.collaborators no_tools home_lima)
                (Ref.mgr "vz") w_fresh ErrNotExist) as (e & He & _ & His).
    + vm_compute. reflexivity.
    + vm_compute. reflexivity.
    + exists e. split; [exact He | exact His].
Defined.

(** X5: with any collaborators, a run fails with an error exactly when one
    of these calls fails, and the error is that call's, wrapped as the
    source wraps it: the inspection command or the decoding of its output,
    the move to the sibling path or the conversion command, the reading of
    the link, the registry's create, the registry's unlock after a
    successful stat of the lock marker, and, in each of the three link
    repairs, the making of the directory, the move of the slot's file, the
    stat of the slot (for another reason than absence), the removal of the
    slot's occupant or the symlink.  The existence query and the stats of
    the persistent file, of its directory and of the lock marker never
    make a run fail: their results only choose the branch. *)
Theorem every_error_is_of_a_step
    {W : Type} `{Collaborators W} (m : userDataDiskManager) (w : W) e :
  val (EnsureUserDataDisk m w) = Err e ↔ error_source m w e.
Proof.
  split.
  { rewrite EnsureUserDataDisk_phases, bind_unfold.
    destruct (val (reconcile m w)) as [[]|e'] eqn:Hr; cbn [val after_calls].
    - rewrite clearLock_run. cbv zeta. intros He.
      destruct (fs_Stat (lockPathOf m) (st (reconcile m w))).1 as [e0|] eqn:Hs;
        cbn [is_nil val] in He; [discriminate|].
      destruct (lcc_run unlockArgs _).1.2 as [cause|] eqn:Hu; [|discriminate].
      injection He as <-. apply source_unlock; [done | done |].
      by eapply unlock_command.
    - intros [= ->]. apply reconcile_Err_inv in Hr.
      destruct Hr as [e q i Hq Hvz Hi
                     |e info q i c Hq Hvz Hi Hfmt Hc
                     |e info q i c a Hq Hvz Hi Hfmt Hc Ha
                     |e q n l Hq Hn Hl
                     |e q n l a Hq Hn Hl Hloc Ha
                     |e q c Hq Hc
                     |e q c a Hq Hc Ha].
      + apply source_inspection; [done | done |]. by apply inspect_error_iff.
      + eapply source_conversion; [done | done | done | done |].
        by apply convert_error_iff.
      + eapply source_repair_after_conversion; [done | done | done | done | done |].
        by apply link_repair_error_iff.
      + by apply source_readlink.
      + apply source_repair_after_readlink; [done | done | done | done |].
        by apply link_repair_error_iff.
      + apply source_creation; [done|]. by apply create_error_iff.
      + apply source_repair_after_creation; [done | done |].
        by apply link_repair_error_iff. }
  { assert (Hbefore : ∀ wf t, fails_before_clearance m w e wf t →
                              val (EnsureUserDataDisk m w) = Err e).
    { intros wf t Hf. apply fails_before_clearance_run in Hf as [-> _]. reflexivity. }
    destruct 1 as [q Hq Hvz He
                  |info q i Hq Hvz Hi Hfmt He
                  |info q i c Hq Hvz Hi Hfmt Hc He
                  |q n l Hq Hn Hl
                  |q n l Hq Hn Hl Hloc He
                  |q Hq He
                  |q c Hq Hc He
                  |r s Hr Hs He].
    - apply inspect_error_iff in He. eapply Hbefore. by apply fail_inspect.
    - apply convert_error_iff in He. eapply Hbefore. by eapply fail_convert.
    - apply link_repair_error_iff in He. eapply Hbefore. by eapply fail_reattach.
    - eapply Hbefore. by apply fail_readlink.
    - apply link_repair_error_iff in He. eapply Hbefore. by apply fail_repair.
    - apply create_error_iff in He. eapply Hbefore. by apply fail_create.
    - apply link_repair_error_iff in He. eapply Hbefore. by apply fail_attach.
    - rewrite EnsureUserDataDisk_phases, (bind_Ok _ _ _ tt Hr). fold r.
      cbn [val after_calls]. rewrite clearLock_run. cbv zeta. fold s. rewrite Hs.
      cbn [is_nil val]. destruct He as [cause u Hu]. subst u. by rewrite Hu. }
Qed.

Lemma every_error_is_of_a_step_witness :
  @error_source _ (Ref.collaborators home_lima) (Ref.mgr "vz") w_lock_dir
    (Errorf ("failed to unlock disk, debug logs:" ++ newline ++ "%s")%string
            ["cannot remove the lock"]).
Proof.
  apply every_error_is_of_a_step. vm_compute. reflexivity.
Defined.

(** X6: with any collaborators: in link repair, when the stat of the
    persistent file fails and the stat of its directory fails for another
    reason than absence, that error is dropped: the directory is not
    created, the move of the slot's file to the persistent path is the next
    call, and link repair goes on from there as if the directory were
    there. *)
Theorem directory_stat_error_is_ignored
    {W : Type} `{Collaborators W} (m : userDataDiskManager) (w : W) e :
  let s := fs_Stat (diskPathOf m) w in
  let d := fs_Stat (path.Dir (diskPathOf m)) s.2 in
  let mv := fs_Rename (limaPathOf m) (diskPathOf m) d.2 in
  let calls := [EvStat (diskPathOf m); EvStat (path.Dir (diskPathOf m));
                EvRename (limaPathOf m) (diskPathOf m)] in
  s.1 ≠ None → d.1 = Some e → errors_Is_ErrNotExist e = false →
  attachPersistentDiskToLimaDisk m w
  = match mv.1 with
    | Some err =>
        mkRes (Err (ErrorfW "could not move data disk to persistent path: %w" [] err))
              mv.2 calls
    | None => after_calls calls (clearSlotAndLink m mv.2)
    end.
Proof.
  intros s d mv calls Hs Hd He.
  rewrite attach_run. cbv zeta. fold s.
  destruct s.1 as [e0|]; [|done].
  rewrite bind_unfold, moveSlot_run. cbv zeta. fold d. rewrite Hd, He. fold mv.
  destruct mv.1 as [err|]; cbn [val st tr]; unfold after_calls; reflexivity.
Qed.

Lemma directory_stat_error_is_ignored_witness :
  @attachPersistentDiskToLimaDisk _ (Faulty.collaborators dir_denied home_lima)
    (Ref.mgr "qemu") w_in_slot
  = mkRes (Ok tt)
      (Ref.mkWorld (<[slot := Ref.Symlink pdisk]> {[ pdisk := Ref.File "raw" ]})
                   {[ "finch" ]})
      [EvStat pdisk; EvStat "/Users/u/.finch/.disks"; EvRename slot pdisk;
       EvStat slot; EvSymlink pdisk slot].
Proof.
  rewrite (@directory_stat_error_is_ignored _
             (Faulty.collaborators dir_denied home_lima) (Ref.mgr "qemu") w_in_slot
             (ErrOther "permission denied")).
  - vm_compute. reflexivity.
  - vm_compute. discriminate.
  - vm_compute. reflexivity.
  - reflexivity.
Defined.

(** ** When a run succeeds, on the reference collaborators *)

(** X7: on the reference collaborators a run returns no error exactly when
    the lock marker is not a directory and, if the registry has the disk,
    the persistent file is raw or qcow2 (for a [vz] backend) or there is
    something at the persistent path or in the slot (for another backend);
    with no registry disk nothing else is needed.  (The persistent path is
    not empty; the lock marker is neither the persistent path nor its
    directory, the slot is not that directory.) *)
Theorem ensure_succeeds_iff m w :
  diskPathOf m ≠ "" →
  lockPathOf m ≠ diskPathOf m → lockPathOf m ≠ path.Dir (diskPathOf m) →
  limaPathOf m ≠ path.Dir (diskPathOf m) →
  val (Ref.ensure m w) = Ok tt
  ↔ can_reconcile m w ∧ Ref.files w !! lockPathOf m ≠ Some Ref.Dir.
Proof.
  intros Hne Hd Hdir Hld.
  destruct (ref_ensure_ok m w Hd Hdir) as (Hok & Hback).
  split; [intros Hv; by apply Hback | intros (Hc & Hk); by apply Hok].
Qed.

Lemma ensure_succeeds_iff_witness :
  val (Ref.ensure (Ref.mgr "vz") w_qcow2_locked) = Ok tt
  ∧ val (Ref.ensure (Ref.mgr "vz") w_lock_dir) ≠ Ok tt
  ∧ val (Ref.ensure (Ref.mgr "vz") w_vmdk) ≠ Ok tt.
Proof.
  split; [|split].
  - apply ensure_succeeds_iff; try (vm_compute; discriminate).
    split; [|vm_compute; discriminate].
    intros _. vm_compute. by right.
  - intros Hv. apply ensure_succeeds_iff in Hv as (_ & Hk);
      try (vm_compute; discriminate).
    apply Hk. vm_compute. reflexivity.
  - intros Hv. apply ensure_succeeds_iff in Hv as (Hc & _);
      try (vm_compute; discriminate).
    destruct Hc as [Hc|Hc]; [vm_compute; set_solver | |]; vm_compute in Hc;
      discriminate.
Defined.

(** X8: on the reference collaborators, one run is enough from a state that
    has what the run needs: it returns no error and leaves the slot a
    symlink to the persistent path and no lock marker; and for a [vz]
    backend it leaves a raw persistent file when the registry had the
    disk, or there was no persistent file, or the file was raw already.
    (The persistent path is not empty and not the slot; the lock marker is
    neither the persistent path nor its directory.) *)
Theorem ensure_converges m w :
  diskPathOf m ≠ "" → diskPathOf m ≠ limaPathOf m →
  lockPathOf m ≠ diskPathOf m → lockPathOf m ≠ path.Dir (diskPathOf m) →
  can_reconcile m w → Ref.files w !! lockPathOf m ≠ Some Ref.Dir →
  let w' := st (Ref.ensure m w) in
  val (Ref.ensure m w) = Ok tt
  ∧ linked m w' ∧ unlocked m w'
  ∧ (normalizing_start m w → raw_if_required m w').
Proof.
  intros Hne Hl Hd Hdir Hc Hk w'.
  destruct (ref_ensure_ok m w Hd Hdir) as (Hok & _).
  specialize (Hok Hc Hk). split; [exact Hok|].
  destruct (ref_ensure_post m Hne w Hok) as (_ & Hlink & Hfree & _).
  split; [exact Hlink|]. split; [exact Hfree|].
  intros Hstart Hvz. by apply ref_ensure_raw.
Qed.

Lemma ensure_converges_witness :
  (val (Ref.ensure (Ref.mgr "vz") w_qcow2_locked) = Ok tt
   ∧ converged (Ref.mgr "vz") (st (Ref.ensure (Ref.mgr "vz") w_qcow2_locked)))
  ∧ (val (Ref.ensure (Ref.mgr "vz") w_reinstalled) = Ok tt
     ∧ linked (Ref.mgr "vz") (st (Ref.ensure (Ref.mgr "vz") w_reinstalled))
     ∧ unlocked (Ref.mgr "vz") (st (Ref.ensure (Ref.mgr "vz") w_reinstalled))).
Proof.
  split.
  - destruct (ensure_converges (Ref.mgr "vz") w_qcow2_locked)
      as (Hok & Hlink & Hfree & Hraw).
    + vm_compute. discriminate.
    + vm_compute. discriminate.
    + vm_compute. discriminate.
    + vm_compute. discriminate.
    + intros _. vm_compute. by right.
    + vm_compute. discriminate.
    + split; [exact Hok|]. split; [exact Hlink|]. split; [|exact Hfree].
      apply Hraw. left. vm_compute. set_solver.
  - destruct (ensure_converges (Ref.mgr "vz") w_reinstalled)
      as (Hok & Hlink & Hfree & _).
    + vm_compute. discriminate.
    + vm_compute. discriminate.
    + vm_compute. discriminate.
    + vm_compute. discriminate.
    + intros Hreg. vm_compute in Hreg. set_solver.
    + vm_compute. discriminate.
    + split; [exact Hok|]. split; [exact Hlink | exact Hfree].
Defined.

(** X9: on the reference collaborators, a reinstall heals at the second run:
    with no registry disk, a [vz] backend and the qcow2 persistent file of
    an earlier install, the first run returns no error and leaves the file
    qcow2, and the second run returns no error and leaves the file raw, the
    slot linked to it and no lock marker. *)
Theorem reinstall_converges_in_two_runs m w :
  diskPathOf m ≠ "" → diskPathOf m ≠ limaPathOf m →
  lockPathOf m ≠ diskPathOf m → lockPathOf m ≠ path.Dir (diskPathOf m) →
  config_VMType m = "vz" →
  diskName ∉ Ref.disks w →
  Ref.files w !! diskPathOf m = Some (Ref.File "qcow2") →
  Ref.files w !! lockPathOf m ≠ Some Ref.Dir →
  let w1 := st (Ref.ensure m w) in
  let w2 := st (Ref.ensure m w1) in
  val (Ref.ensure m w) = Ok tt
  ∧ Ref.files w1 !! diskPathOf m = Some (Ref.File "qcow2")
  ∧ val (Ref.ensure m w1) = Ok tt
  ∧ converged m w2.
Proof.
  intros Hne Hl Hd Hdir Hvz Hreg Hdisk Hk w1 w2.
  assert (Hok1 : val (Ref.ensure m w) = Ok tt).
  { apply (ref_ensure_ok m w Hd Hdir); [|done]. by intros ?. }
  destruct (ref_ensure_post m Hne w Hok1) as (Hreg1 & Hlink1 & Hfree1 & _).
  assert (Hdisk1 : Ref.files w1 !! diskPathOf m = Some (Ref.File "qcow2")).
  { destruct (ref_ensure_image m w _ Hl (not_eq_sym Hd) Hdisk) as [?|(? & _)]; done. }
  assert (Hok2 : val (Ref.ensure m w1) = Ok tt).
  { apply (ref_ensure_ok m w1 Hd Hdir).
    - intros _. apply String.eqb_eq in Hvz. rewrite Hvz. by right.
    - subst w1. by rewrite Hfree1. }
  destruct (ref_ensure_post m Hne w1 Hok2) as (_ & Hlink2 & Hfree2 & Hraw2).
  repeat split; try done.
  intros _. apply Hraw2; try done; [by apply String.eqb_eq | by left].
Qed.

Lemma reinstall_converges_in_two_runs_witness :
  converged (Ref.mgr "vz")
    (st (Ref.ensure (Ref.mgr "vz") (st (Ref.ensure (Ref.mgr "vz") w_reinstalled)))).
Proof.
  apply (reinstall_converges_in_two_runs (Ref.mgr "vz") w_reinstalled);
    try (vm_compute; discriminate); reflexivity.
Defined.

(** ** What becomes of the persistent file, on the reference collaborators *)

(** X10: on the reference collaborators, whatever the run does and whether it
    fails or not, what was at the persistent path at the start is
    afterwards still there, or (when the registry had the disk and the
    backend is [vz]) at the [.qcow2] sibling path.  (The persistent path is
    neither the slot nor the lock marker.) *)
Theorem persistent_image_is_never_lost m w n :
  diskPathOf m ≠ limaPathOf m → diskPathOf m ≠ lockPathOf m →
  Ref.files w !! diskPathOf m = Some n →
  let w' := st (Ref.ensure m w) in
  Ref.files w' !! diskPathOf m = Some n
  ∨ (diskName ∈ Ref.disks w ∧ config_VMType m = "vz"
     ∧ Ref.files w' !! qcowPathOf (diskPathOf m) = Some n).
Proof.
  intros Hl Hk Hdisk w'.
  destruct (ref_ensure_image m w n Hl Hk Hdisk) as [?|(Hreg & Hvz%String.eqb_eq & ?)];
    [by left | by right].
Qed.

Lemma persistent_image_is_never_lost_witness :
  Ref.files (st (Ref.ensure (Ref.mgr "vz") w_vmdk)) !! (pdisk ++ ".qcow2")%string
  = Some (Ref.File "vmdk").
Proof.
  destruct (persistent_image_is_never_lost (Ref.mgr "vz") w_vmdk (Ref.File "vmdk"))
    as [Hd|(_ & _ & Hq)].
  - vm_compute. discriminate.
  - vm_compute. discriminate.
  - vm_compute. reflexivity.
  - vm_compute in Hd. discriminate.
  - exact Hq.
Defined.

(** X11: on the reference collaborators, a registry disk without a persistent
    file is a dead end for a [vz] backend: the run fails at the inspection
    and changes nothing, whatever the slot holds (also the image of a
    creation that was interrupted before the move), and so does every
    later run with that backend. *)
Theorem missing_image_is_a_dead_end m w :
  config_VMType m = "vz" → diskName ∈ Ref.disks w →
  Ref.files w !! diskPathOf m = None →
  Ref.ensure m w
  = mkRes (Err (ErrorfW "failed to get disk info for disk at %q: %w"
                        [diskPathOf m] Ref.exitStatus))
          w [EvLima lsArgs; EvExec (qemuImg m) (infoArgs (diskPathOf m))]
  ∧ ∀ k, runs m (replicate k "vz") w = w.
Proof.
  intros Hvz%String.eqb_eq Hreg Hdisk.
  split; [by apply ref_ensure_missing|].
  intros k. by apply ref_runs_missing.
Qed.

Lemma missing_image_is_a_dead_end_witness :
  runs (Ref.mgr "vz") ["vz"; "vz"; "vz"] w_in_slot = w_in_slot.
Proof.
  destruct (missing_image_is_a_dead_end (Ref.mgr "vz") w_in_slot) as (_ & Hruns).
  - reflexivity.
  - vm_compute. set_solver.
  - vm_compute. reflexivity.
  - exact (Hruns 3).
Defined.

(** X12: on the reference collaborators, a conversion that fails is not undone:
    when the registry has the disk, the backend is [vz] and the persistent
    file is in a format other than raw and qcow2, the run fails at the
    conversion, leaves the file at the [.qcow2] sibling and nothing at the
    persistent path, and every later run with that backend fails at the
    inspection and leaves that state as it is. *)
Theorem failed_conversion_is_not_undone m w format :
  config_VMType m = "vz" → diskName ∈ Ref.disks w →
  Ref.files w !! diskPathOf m = Some (Ref.File format) →
  format ≠ "" → format ≠ "raw" → format ≠ "qcow2" →
  let w1 := st (Ref.ensure m w) in
  val (Ref.ensure m w)
  = Err (ErrorfW "failed to convert disk %q from qcow2 to raw: %w"
                 [diskPathOf m] Ref.exitStatus)
  ∧ Ref.files w1 !! diskPathOf m = None
  ∧ Ref.files w1 !! qcowPathOf (diskPathOf m) = Some (Ref.File format)
  ∧ val (Ref.ensure m w1)
    = Err (ErrorfW "failed to get disk info for disk at %q: %w"
                   [diskPathOf m] Ref.exitStatus)
  ∧ ∀ k, runs m (replicate k "vz") w1 = w1.
Proof.
  intros Hvz Hreg Hdisk He Hr Hq w1.
  pose proof (qcowPath_ne (diskPathOf m)) as Hne.
  pose proof Hvz as Hvzb. apply String.eqb_eq in Hvzb.
  pose proof (ref_ensure_unconvertible m w format Hreg Hvzb Hdisk He Hr Hq) as Hrun.
  assert (Hw1 : w1 = Ref.mkWorld
                       (<[qcowPathOf (diskPathOf m) := Ref.File format]>
                          (delete (diskPathOf m) (Ref.files w)))
                       (Ref.disks w)).
  { subst w1. by rewrite Hrun. }
  assert (Hgone : Ref.files w1 !! diskPathOf m = None).
  { rewrite Hw1. cbn [Ref.files].
    rewrite lookup_insert_ne by done. apply lookup_delete_eq. }
  assert (Hreg1 : diskName ∈ Ref.disks w1) by (by rewrite Hw1).
  split; [by rewrite Hrun|]. split; [exact Hgone|].
  split; [rewrite Hw1; cbn [Ref.files]; apply lookup_insert_eq|].
  split; [by rewrite (ref_ensure_missing m w1 Hreg1 Hvzb Hgone)|].
  intros k. by apply ref_runs_missing.
Qed.

Lemma failed_conversion_is_not_undone_witness :
  Ref.files (runs (Ref.mgr "vz") ["vz"; "vz"]
               (st (Ref.ensure (Ref.mgr "vz") w_vmdk))) !! pdisk = None.
Proof.
  destruct (failed_conversion_is_not_undone (Ref.mgr "vz") w_vmdk "vmdk")
    as (_ & Hgone & _ & _ & Hruns); try (vm_compute; discriminate).
  - reflexivity.
  - vm_compute. set_solver.
  - vm_compute. reflexivity.
  - change ["vz"; "vz"] with (replicate 2 "vz"). rewrite (Hruns 2). exact Hgone.
Defined.

(** X13: on the reference collaborators, link verification trusts the text of
    the link: for a backend other than [vz], when the registry has the disk
    and the slot is a symlink to the persistent path, the run returns no
    error, changes nothing and never stats the persistent path, also when
    there is no file there. *)
Theorem dangling_link_is_accepted m w :
  config_VMType m ≠ "vz" → diskName ∈ Ref.disks w →
  Ref.files w !! limaPathOf m = Some (Ref.Symlink (diskPathOf m)) →
  Ref.files w !! lockPathOf m = None →
  Ref.ensure m w
  = mkRes (Ok tt) w [EvLima lsArgs; EvReadlink (limaPathOf m); EvStat (lockPathOf m)].
Proof.
  intros Hvz%String.eqb_neq Hreg Hlink Hfree.
  rewrite (ref_ensure_converged m w Hreg Hlink Hfree); rewrite Hvz; done.
Qed.

Lemma dangling_link_is_accepted_witness :
  val (Ref.ensure (Ref.mgr "qemu") w_dangling) = Ok tt
  ∧ Ref.files (st (Ref.ensure (Ref.mgr "qemu") w_dangling)) !! pdisk = None.
Proof.
  rewrite (dangling_link_is_accepted (Ref.mgr "qemu") w_dangling).
  - split; reflexivity.
  - vm_compute. discriminate.
  - vm_compute. set_solver.
  - vm_compute. reflexivity.
  - vm_compute. reflexivity.
Defined.

(** X14: on the reference collaborators, a raw persistent file stays the raw
    file it is through any runs, whatever backend each is configured with,
    whether the registry has the disk or not and whether the runs fail or
    not: no run converts, moves or replaces it.  (The persistent path is
    neither the slot nor the lock marker.) *)
Theorem raw_image_stays_raw m vmTypes w :
  diskPathOf m ≠ limaPathOf m → diskPathOf m ≠ lockPathOf m →
  Ref.files w !! diskPathOf m = Some (Ref.File "raw") →
  Ref.files (runs m vmTypes w) !! diskPathOf m = Some (Ref.File "raw").
Proof.
  intros Hl Hk. revert w.
  induction vmTypes as [|vmType rest IH]; intros w Hraw; [exact Hraw|].
  cbn [runs]. apply IH.
  by apply (ref_ensure_raw_stays (with_VMType m vmType) w).
Qed.

Lemma raw_image_stays_raw_witness :
  Ref.files (runs (Ref.mgr "vz") ["vz"; "qemu"; "vz"] w_lock_dir) !! pdisk
  = Some (Ref.File "raw").
Proof.
  apply (raw_image_stays_raw (Ref.mgr "vz")).
  - vm_compute. discriminate.
  - vm_compute. discriminate.
  - vm_compute. reflexivity.
Defined.

(** ** Paths *)

(** X15: whatever the lima home and the persistent path are, the lock marker's
    path is neither the slot's path nor a [.qcow2] sibling, the slot's path
    is no [.qcow2] sibling, and the [.qcow2] sibling of a path is not that
    path: unlocking, link repair and conversion cannot take one for the
    other. *)
Theorem manager_paths_are_distinct m p :
  lockPathOf m ≠ limaPathOf m
  ∧ lockPathOf m ≠ qcowPathOf p
  ∧ limaPathOf m ≠ qcowPathOf p
  ∧ qcowPathOf p ≠ p.
Proof.
  split; [apply lockPath_ne_limaPath|].
  split; [apply lockPath_ne_qcowPath|].
  split; [apply limaPath_ne_qcowPath | apply qcowPath_ne].
Qed.

(** ** What a run without error leaves, and a second run *)

(** X16: on the reference collaborators, a run without error leaves the
    slot a symlink to the persistent path and no lock marker; a persistent
    file that is there when the registry has no disk is left as it is; and
    for a [vz] backend the persistent file is raw afterwards exactly when
    the registry had the disk at the start, or there was no persistent
    file, or the file was raw already.  (For the last two parts the
    persistent path is neither the slot nor the lock marker.) *)
Theorem ensure_links_and_unlocks m w :
  diskPathOf m ≠ "" →
  val (Ref.ensure m w) = Ok tt →
  let w' := st (Ref.ensure m w) in
  linked m w' ∧ unlocked m w'
  ∧ (diskPathOf m ≠ limaPathOf m → diskPathOf m ≠ lockPathOf m →
     (diskName ∉ Ref.disks w →
      ∀ n, Ref.files w !! diskPathOf m = Some n →
           Ref.files w' !! diskPathOf m = Some n)
     ∧ (raw_if_required m w' ↔ (config_VMType m = "vz" → normalizing_start m w))).
Proof.
  intros Hne Hok w'.
  destruct (ref_ensure_post m Hne w Hok) as (_ & Hlink & Hfree & _).
  split; [exact Hlink|]. split; [exact Hfree|].
  intros Hl Hk.
  assert (Hkeep : diskName ∉ Ref.disks w →
                  ∀ n, Ref.files w !! diskPathOf m = Some n →
                       Ref.files w' !! diskPathOf m = Some n).
  { intros Hreg n Hn.
    destruct (ref_ensure_image m w n Hl Hk Hn) as [?|(? & _)]; done. }
  split; [exact Hkeep|]. split.
  - intros Hraw Hvz. specialize (Hraw Hvz).
    destruct (decide (diskName ∈ Ref.disks w)) as [Hreg|Hreg]; [by left|].
    right. destruct (Ref.files w !! diskPathOf m) as [n|] eqn:Hn; [|by left].
    right. rewrite <- Hraw. symmetry. by apply Hkeep.
  - intros Hstart Hvz. apply ref_ensure_raw; try done. by apply Hstart.
Qed.

Lemma ensure_links_and_unlocks_witness :
  linked (Ref.mgr "vz") (st (Ref.ensure (Ref.mgr "vz") w_reinstalled))
  ∧ Ref.files (st (Ref.ensure (Ref.mgr "vz") w_reinstalled)) !! pdisk
    = Some (Ref.File "qcow2")
  ∧ converged (Ref.mgr "vz") (st (Ref.ensure (Ref.mgr "vz") w_qcow2_locked)).
Proof.
  destruct (ensure_links_and_unlocks (Ref.mgr "vz") w_reinstalled)
    as (Hlink & _ & Hrest).
  { vm_compute. discriminate. }
  { vm_compute. reflexivity. }
  destruct Hrest as (Hkeep & _).
  { vm_compute. discriminate. }
  { vm_compute. discriminate. }
  split; [exact Hlink|]. split.
  { apply Hkeep; [vm_compute; set_solver | vm_compute; reflexivity]. }
  destruct (ensure_links_and_unlocks (Ref.mgr "vz") w_qcow2_locked)
    as (Hlink2 & Hfree2 & Hrest2).
  { vm_compute. discriminate. }
  { vm_compute. reflexivity. }
  destruct Hrest2 as (_ & Hraw2).
  { vm_compute. discriminate. }
  { vm_compute. discriminate. }
  split; [exact Hlink2|]. split; [|exact Hfree2].
  apply Hraw2. intros _. left. vm_compute. set_solver.
Defined.

(** X17: on the reference collaborators, after a run without error a second
    run makes queries only, returns no error and leaves the state as it
    is, provided that, for a [vz] backend, the first run started with the
    disk in the registry, or with no persistent file, or with a raw one
    (the persistent path being neither the slot nor the lock marker). *)
Theorem ensure_idempotent_once_raw m w :
  diskPathOf m ≠ "" →
  val (Ref.ensure m w) = Ok tt →
  (config_VMType m = "vz" →
   diskPathOf m ≠ limaPathOf m ∧ diskPathOf m ≠ lockPathOf m
   ∧ normalizing_start m w) →
  second_run_is_noop m w.
Proof.
  intros Hne Hok Hvz.
  destruct (ref_ensure_post m Hne w Hok) as (Hreg & Hlink & Hfree & _).
  assert (Hraw' : String.eqb (config_VMType m) "vz" = true →
                  Ref.files (st (Ref.ensure m w)) !! diskPathOf m
                  = Some (Ref.File "raw")).
  { intros Hb%String.eqb_eq. destruct (Hvz Hb) as (Hl & Hk & Hs).
    by apply ref_ensure_raw. }
  unfold second_run_is_noop.
  rewrite (ref_ensure_converged m _ Hreg Hlink Hfree Hraw'). cbn [val st tr].
  split; [reflexivity|]. split; [reflexivity|].
  destruct (String.eqb (config_VMType m) "vz"); by repeat constructor.
Qed.

Lemma ensure_idempotent_once_raw_witness :
  second_run_is_noop (Ref.mgr "vz") w_qcow2_locked.
Proof.
  apply ensure_idempotent_once_raw.
  - vm_compute. discriminate.
  - vm_compute. reflexivity.
  - intros _. split; [vm_compute; discriminate|].
    split; [vm_compute; discriminate|].
    left. vm_compute. set_solver.
Defined.

(** ** How often the conversion runs *)

(** X18: with any collaborators, the image tool's convert runs once in a run
    that gets to it (the registry has the disk, the backend is [vz], the
    inspection reports a format other than raw and the move to the
    [.qcow2] sibling succeeds) and not at all in any other run; so never
    twice, whatever link verification does afterwards. *)
Theorem convert_runs_once_when_reached
    {W : Type} `{Collaborators W} (m : userDataDiskManager) (w : W) :
  (conversion_reached m w →
   count_calls is_convert (tr (EnsureUserDataDisk m w)) = 1)
  ∧ (¬ conversion_reached m w →
     count_calls is_convert (tr (EnsureUserDataDisk m w)) = 0)
  ∧ (count_calls is_convert (tr (EnsureUserDataDisk m w)) ≤ 1)%nat.
Proof.
  split; [apply convert_count_reached|].
  split; [apply convert_count_not_reached|].
  destruct (conversion_reachedb m w) eqn:Hb.
  - apply conversion_reachedb_spec in Hb.
    by rewrite (convert_count_reached m w Hb).
  - rewrite (convert_count_not_reached m w); [lia|].
    intros Hr%conversion_reachedb_spec. congruence.
Qed.

Lemma convert_runs_once_when_reached_witness :
  count_calls is_convert (tr (Ref.ensure (Ref.mgr "vz") w_qcow2_locked)) = 1.
Proof.
  apply (@convert_runs_once_when_reached _ (Ref.collaborators home_lima)
           (Ref.mgr "vz") w_qcow2_locked).
  apply conversion_reachedb_spec. vm_compute. reflexivity.
Defined.
